(** * VEIA data-processing pipeline (projects/veia/process_data.py)

    A shallow embedding of the script that turns the transaction ledger
    into the visualisation exports, and the properties of its views.

    Conventions of the embedding.
    - A DataFrame is the list of its rows, in row order; a column is the
      [fmap] of a projection over that list.
    - A Python [dict] is a [gmap], a Python [set] a [gset].
    - A numeric cell of the ledger ([price], [price_z]) is the rational it
      is written as: an integer literal has denominator 1, a literal with a
      decimal point has another denominator ([10.0] is [100 # 10]).  A mean
      or a ratio computed by the script is an [fval], which adds the two
      values a division or a mean can produce besides a number.  The sum of
      a column follows the type [read_csv] gives the column: integer columns
      add with wrap-around, and the rounding of a float64 sum, like the order
      the default sort leaves equal values in, is the kernel's own, taken as
      given ([Kernels]).
    - A cell of a text column is the string of the file.  [read_csv] takes
      some strings for missing values ([na_values]); [groupby] leaves the
      rows with a missing key out.
    - The cosmetic coordinates drawn from [np.random] (sphere positions,
      jitter) carry no logic and are left out of the records; the rows drawn
      by [DataFrame.sample] are picked by an explicit [chooser]. *)

From Stdlib Require Import QArith Qabs OrderedTypeEx.
From stdpp Require Import gmap strings list sorting.

#[local] Set Warnings "-clear-no-such-hyp".

Open Scope string_scope.
Open Scope list_scope.

(** ** Floats computed by the script *)

Inductive fval : Type :=
  | Num (q : Q)
  | PInf
  | NaN.

(** [float(x)] lies in the closed unit interval. *)
Definition in_unit (v : fval) : Prop :=
  match v with
  | Num q => (0 <= q /\ q <= 1)%Q
  | _ => False
  end.

Definition is_nan (v : fval) : bool :=
  match v with NaN => true | _ => false end.

Definition Qnat (n : nat) : Q := inject_Z (Z.of_nat n).

(** numpy's true division of two non-negative counts. *)
Definition np_div (k n : nat) : fval :=
  match n with
  | O => match k with O => NaN | _ => PInf end
  | _ => Num (Qnat k / Qnat n)
  end.

(** Division of a float by a non-zero literal. *)
Definition fdiv_const (v : fval) (c : Q) : fval :=
  match v with Num q => Num (q / c) | other => other end.

(** Python's builtin [min(a, b)]: [b] replaces [a] only when [b < a]
    holds, so a NaN first argument is returned as it is. *)
Definition py_min (a : fval) (b : Q) : fval :=
  match a with
  | Num q => if Qle_bool q b then Num q else Num b
  | PInf => Num b
  | NaN => NaN
  end.

(** ** Machine numbers *)

(** Two's complement wrap-around of a signed and of an unsigned 64-bit
    integer. *)
Definition wrap_int64 (z : Z) : Z := ((z + 2 ^ 63) mod 2 ^ 64 - 2 ^ 63)%Z.
Definition wrap_uint64 (z : Z) : Z := (z mod 2 ^ 64)%Z.

(** [float(n)] of an integer: the nearest double, ties to the even
    significand.  Integers of at most 53 bits are doubles already. *)
Definition double_of_Z (z : Z) : Z :=
  let a := Z.abs z in
  let bits := (Z.log2 a + 1)%Z in
  if (bits <=? 53)%Z then z
  else
    let s := (bits - 53)%Z in
    let q := Z.shiftr a s in
    let r := Z.land a (Z.ones s) in
    let half := Z.shiftl 1 (s - 1) in
    let q' := if (half <? r)%Z || ((r =? half)%Z && Z.odd q)
              then (q + 1)%Z else q in
    (Z.sgn z * Z.shiftl q' s)%Z.

(** The type [read_csv] gives a numeric column with no missing cell:
    [int64] when every cell is an integer literal in range, [uint64] when
    the integer literals are non-negative and some only fit 64 unsigned
    bits, [float64] otherwise.  (A header-only file has no cell to go by;
    its columns are of type [object], see [nlargest].) *)
Inductive dtype : Type := Int64 | UInt64 | Float64.

Definition int_literal (q : Q) : bool := (Qden q =? 1)%positive.

Definition column_dtype (cells : list Q) : dtype :=
  if forallb (λ q, int_literal q && (- 2 ^ 63 <=? Qnum q)%Z
                   && (Qnum q <? 2 ^ 63)%Z) cells
  then Int64
  else if forallb (λ q, int_literal q && (0 <=? Qnum q)%Z
                        && (Qnum q <? 2 ^ 64)%Z) cells
  then UInt64
  else Float64.

(** What the numeric kernels under pandas compute in ways the embedding
    does not fix. *)
Class Kernels : Type := {
  (** [np.add.reduce] over a non-empty float64 column, which is what
      [Series.sum()] comes to: the sum with the rounding and in the order
      of additions of numpy. *)
  add_reduce : list Q → Q;
  (** The float64 sum of one group of [groupby(...).sum()], which pandas
      adds with a kernel of its own. *)
  group_add : list Q → Q;
  (** The rows in the order [sort_values(ascending=False)] leaves them
      with its default sort: descending by the column, equal values in no
      promised order. *)
  sort_values_desc : ∀ {R : Type}, (R → Q) → list R → list R
}.

(** The default sort does sort. *)
Definition sorts_descending `{Kernels} : Prop :=
  ∀ (R : Type) (col : R → Q) (rows : list R),
    sort_values_desc col rows ≡ₚ rows
    ∧ StronglySorted (λ a b, (col b <= col a)%Q) (sort_values_desc col rows).

(** ** The pandas operations the script calls *)

Module Pandas.

Section Columns.
Context {A : Type}.

(** The sum of rationals without rounding. *)
Definition exact_sum (xs : list Q) : Q := foldr Qplus 0%Q xs.

(** [Series.sum()] of a numeric column of type [dt]: 0 on an empty
    column; on an integer column the sum in 64-bit integers, which wraps
    around silently; on a float64 column the sum as numpy rounds it. *)
Definition sum `{Kernels} (dt : dtype) (cells : list Q) : Q :=
  match dt with
  | Int64 => inject_Z (wrap_int64 (foldr Z.add 0%Z (Qnum <$> cells)))
  | UInt64 => inject_Z (wrap_uint64 (foldr Z.add 0%Z (Qnum <$> cells)))
  | Float64 => match cells with [] => 0%Q | _ => add_reduce cells end
  end.

(** The ['sum'] of one group of a [groupby(...).agg]: as [sum], but
    for the float64 kernel.  A group is never empty. *)
Definition group_sum `{Kernels} (dt : dtype) (cells : list Q) : Q :=
  match dt with
  | Int64 => inject_Z (wrap_int64 (foldr Z.add 0%Z (Qnum <$> cells)))
  | UInt64 => inject_Z (wrap_uint64 (foldr Z.add 0%Z (Qnum <$> cells)))
  | Float64 => group_add cells
  end.

(** [float(x)] of a value of a column of type [dt]. *)
Definition float_of (dt : dtype) (q : Q) : Q :=
  match dt with
  | Float64 => q
  | _ => inject_Z (double_of_Z (Qnum q))
  end.

(** [Series.mean()]: NaN on an empty column, and otherwise the sum over
    the count, followed up to the rounding of floats. *)
Definition mean (xs : list Q) : fval :=
  match xs with
  | [] => NaN
  | _ => Num (exact_sum xs / Qnat (length xs))
  end.

(** [Series.sum()] of a boolean column. *)
Definition count_true (bs : list bool) : nat :=
  length (filter (λ b, b = true) bs).

(** [Series.mean()] of a boolean column. *)
Definition mean_bool (bs : list bool) : fval :=
  np_div (count_true bs) (length bs).

(** [df.head(n)] and the slice [l[:n]]. *)
Definition head (n : nat) (l : list A) : list A := take n l.
End Columns.

Section Keys.
Context {K : Type} `{EqDecision K}.

(** [Series.unique()]: the distinct values, in order of first
    appearance. *)
Fixpoint unique (l : list K) : list K :=
  match l with
  | [] => []
  | x :: l' => x :: filter (λ y, y ≠ x) (unique l')
  end.

(** Number of rows holding [k]. *)
Definition occurrences (k : K) (l : list K) : nat :=
  length (filter (λ y, y = k) l).

(** [Series.isin(values)] on one row. *)
Definition isin (k : K) (values : list K) : bool :=
  bool_decide (k ∈ values).
End Keys.

Section Sorting.
Context {A : Type} (leb : A → A → bool).

(** Insertion into a list sorted for [leb]: the new element stops in
    front of the first element it is [leb] to, so it stays ahead of its
    equals. *)
Fixpoint insert_sorted (x : A) (l : list A) : list A :=
  match l with
  | [] => [x]
  | y :: l' => if leb x y then x :: y :: l' else y :: insert_sorted x l'
  end.

(** A stable sort: rows that compare equal keep their row order. *)
Fixpoint sort_by (l : list A) : list A :=
  match l with
  | [] => []
  | x :: l' => insert_sorted x (sort_by l')
  end.
End Sorting.

(** Exceptions the script can meet. *)
Inductive exn : Type :=
| ValueError   (** sample larger than the population *)
| KeyError (key : string)
| TypeError.   (** [nlargest] on a column that is not numeric *)

Inductive result (A : Type) : Type :=
| Ok (a : A)
| Raise (e : exn).
Arguments Ok {A} a.
Arguments Raise {A} e.

Definition bind {A B} (r : result A) (k : A → result B) : result B :=
match r with
| Ok a => k a
| Raise e => Raise e
end.

Section Counting.
Context {K : Type} `{EqDecision K}.

(** [Series.value_counts()]: each distinct value with its number of
    rows, most frequent first.  pandas does not promise an order among
    values of equal count; here they stay in order of first appearance. *)
Definition count_desc (a b : K * nat) : bool := (b.2 <=? a.2)%nat.

Definition value_counts (l : list K) : list (K * nat) :=
  sort_by count_desc ((λ k, (k, occurrences k l)) <$> unique l).

(** [.index] of a [value_counts()] result. *)
Definition index (vc : list (K * nat)) : list K := fst <$> vc.

(** [value_counts().head(n).index]: the [n] most frequent values. *)
Definition top (n : nat) (l : list K) : list K :=
  index (head n (value_counts l)).

(** The largest number of rows any value has. *)
Definition max_count (l : list K) : nat :=
  foldr Nat.max 0%nat ((λ k, occurrences k l) <$> unique l).

(** [Series.mode()]: the values with the largest count, returned
    sorted in ascending order. *)
Definition mode (leb : K → K → bool) (l : list K) : list K :=
  sort_by leb (filter (λ k, occurrences k l = max_count l) (unique l)).

(** [df.groupby(key)]: one group per distinct key, groups in ascending
    key order, each holding its rows in row order. *)
Definition groupby {R : Type} (leb : K → K → bool) (key : R → K)
    (rows : list R) : list (K * list R) :=
  (λ k, (k, filter (λ r, key r = k) rows))
    <$> sort_by leb (unique (key <$> rows)).
End Counting.

(** [df.nlargest(n, col)] with the default [keep="first"].  It raises on
    a column that is not numeric.  When the frame has more than [n] rows it
    selects the [n] largest, equal values in row order; when it has at most
    [n] rows it sorts the whole frame with [sort_values], whose default
    sort promises no order among equal values. *)
Definition nlargest `{Kernels} {R : Type} (numeric : bool) (n : nat)
    (col : R → Q) (rows : list R) : result (list R) :=
  if numeric then
    if decide (length rows ≤ n)%nat
    then Ok (head n (sort_values_desc col rows))
    else Ok (head n (sort_by (λ a b, Qle_bool (col b) (col a)) rows))
  else Raise TypeError.

(** [df.sample(n=n)] draws without replacement: it raises when [n]
  exceeds the number of rows, and otherwise returns the [n] rows the
  generator picks. *)
Definition sample {R : Type} (choose : nat → list R → list R) (n : nat)
  (rows : list R) : result (list R) :=
if decide (n ≤ length rows)%nat then Ok (choose n rows) else Raise ValueError.

End Pandas.

(** Orders on the keys the script groups by: Python compares strings
    code point by code point and tuples lexicographically. *)
Definition pair_leb (a b : string * string) : bool :=
  if decide (a.1 = b.1) then String.leb a.2 b.2 else String.leb a.1 b.1.

Definition triple_leb (a b : string * string * string) : bool :=
  if decide (a.1 = b.1) then String.leb a.2 b.2 else pair_leb a.1 b.1.

(** ** The tables *)

Record Timestamp : Type := {
  ts_year : nat; ts_month : nat; ts_day : nat; ts_hour : nat;
  ts_minute : nat; ts_second : nat
}.

(** A row of [veia_transactions.csv]. *)
Record Txn : Type := {
  transaction_id : string;
  timestamp : Timestamp;
  buyer_id : string;
  seller_id : string;
  category : string;
  price : Q;
  price_z : Q;
  marketplace : string;
  buyer_region : string;
  seller_region : string;
  anomaly_label : string;
  anomaly_notes : string
}.

(** A row of the users table; a missing cell is [None]. *)
Record User : Type := {
  user_id : string;
  region : option string;
  kyc_verified : option bool
}.

#[global] Instance Timestamp_eq_dec : EqDecision Timestamp.
Proof. solve_decision. Defined.

(** [transactions['is_anomaly'] = transactions['anomaly_label'] != 'normal'] *)
Definition is_anomaly (t : Txn) : bool :=
  bool_decide (anomaly_label t ≠ "normal").

Definition abs_z (t : Txn) : Q := Qabs (price_z t).

Import Pandas.

(** ** Missing cells

    [read_csv] reads a text cell holding one of these tokens, or nothing,
    as a missing value. *)
Definition na_values : list string :=
  [ ""; "#N/A"; "#N/A N/A"; "#NA"; "-1.#IND"; "-1.#QNAN"; "-NaN"; "-nan";
    "1.#IND"; "1.#QNAN"; "<NA>"; "N/A"; "NA"; "NULL"; "NaN"; "None"; "n/a";
    "nan"; "null" ].

Definition missing_cell (cell : string) : bool :=
  bool_decide (cell ∈ na_values).

(** ** Records of the exported views *)

Record Node : Type := {
  node_id : string;
  node_tx_count : nat;
  node_anomaly_count : nat;
  node_total_value : Q;
  node_region : string;
  node_kyc : bool
}.

(** A row of [edge_groups] after [reset_index()]. *)
Record EdgeGroup : Type := {
  eg_buyer_id : string;
  eg_seller_id : string;
  eg_transaction_id : nat;
  eg_price : Q;
  eg_price_z : fval;
  eg_is_anomaly : nat;
  eg_anomaly_label : string
}.

Record Edge : Type := {
  edge_source : string;
  edge_target : string;
  edge_tx_count : nat;
  edge_total_value : Q;
  edge_avg_price_z : fval;
  edge_anomaly_count : nat;
  edge_anomaly_type : string;
  edge_intensity : fval
}.

Record Daily : Type := {
  daily_day : nat;
  daily_count : nat;
  daily_value : Q;
  daily_intensity : fval
}.

Record Temporal : Type := {
  temporal_type : string;
  temporal_total_count : nat;
  temporal_avg_price : fval;
  temporal_avg_z_score : fval;
  temporal_daily_counts : list Daily
}.

Record Particle : Type := {
  particle_base_x : nat;
  particle_z : Q;
  particle_size : Q;
  particle_intensity : fval;
  particle_is_flare : bool;
  particle_category : string;
  particle_price : Q;
  particle_z_score : Q;
  particle_anomaly_type : string
}.

Record CategoryCentre : Type := {
  centre_name : string;
  centre_x : nat;
  centre_total : nat;
  centre_anomalies : nat
}.

Record ParticleExport : Type := {
  particles : list Particle;
  particle_categories : list CategoryCentre;
  total_particles : nat;
  flare_count : nat
}.

Record Coords : Type := {
  lat : Z;
  lon : Z;
  name : string
}.

(** A row of [flows] after [reset_index()]. *)
Record FlowGroup : Type := {
  fg_buyer_region : string;
  fg_seller_region : string;
  fg_marketplace : string;
  fg_transaction_id : nat;
  fg_price : Q;
  fg_is_anomaly : nat
}.

Record Flow : Type := {
  flow_source : string;
  flow_target : string;
  flow_source_coords : Coords;
  flow_target_coords : Coords;
  flow_marketplace : string;
  flow_tx_count : nat;
  flow_total_value : Q;
  flow_anomaly_count : nat;
  flow_anomaly_rate : fval;
  flow_intensity : fval
}.

Record RegionTotal : Type := {
  region_code : string;
  region_coords_of : Coords;
  region_total_transactions : nat
}.

Record GeoExport : Type := {
  geo_flows : list Flow;
  geo_regions : list RegionTotal
}.

Record RingNode : Type := {
  ring_node_id : string;
  ring_position : nat;
  wash_trade_count : nat
}.

Record RingEdge : Type := {
  ring_source : string;
  ring_target : string;
  is_wash_trade : bool;
  ring_price : Q;
  ring_timestamp : Timestamp
}.

Record RingExport : Type := {
  ring_export_nodes : list RingNode;
  ring_export_edges : list RingEdge;
  total_wash_trades : nat;
  ring_size : nat
}.

Record MarketPoint : Type := {
  point_is_anomaly : bool;
  point_price : Q;
  point_category : string;
  point_anomaly_type : string
}.

Record MarketStats : Type := {
  stats_total_transactions : nat;
  stats_total_value : Q;
  stats_anomaly_count : nat;
  stats_anomaly_rate : fval
}.

Record Marketplace : Type := {
  market_name : string;
  market_center : Z * Z * Z;
  market_points : list MarketPoint;
  market_stats_of : MarketStats
}.

Record NetworkExport : Type := {
  nodes : list Node;
  edges : list Edge;
  total_nodes : nat;
  total_edges : nat
}.

Record TimelineExport : Type := {
  anomaly_types : list Temporal;
  timeline_start : option Timestamp;
  timeline_end : option Timestamp
}.

Record MarketplaceExport : Type := {
  marketplaces : list Marketplace;
  total_points : nat
}.

Record Overview : Type := {
  overview_total_transactions : nat;
  overview_total_anomalies : nat;
  overview_detection_rate : fval;
  overview_total_volume : Q;
  overview_start : option Timestamp;
  overview_end : option Timestamp
}.

Record AnomalyBreakdown : Type := {
  breakdown_type : string;
  breakdown_count : nat;
  breakdown_avg_price : fval;
  breakdown_avg_z_score : fval
}.

Record MarketBreakdown : Type := {
  mb_name : string;
  mb_transactions : nat;
  mb_anomaly_rate : fval;
  mb_total_value : Q
}.

Record CategoryStats : Type := {
  cat_total : nat;
  cat_anomalies : nat;
  cat_anomaly_rate : fval
}.

Record StatsExport : Type := {
  stats_overview : Overview;
  stats_anomaly_breakdown : list AnomalyBreakdown;
  stats_marketplaces : list MarketBreakdown;
  stats_categories : gmap string CategoryStats
}.

(** The columns kept in [transactions.json]. *)
Record TxnRecord : Type := {
  tr_transaction_id : string;
  tr_timestamp : Timestamp;
  tr_buyer_id : string;
  tr_seller_id : string;
  tr_category : string;
  tr_price : Q;
  tr_marketplace : string;
  tr_is_anomaly : bool;
  tr_anomaly_label : string
}.

(** The columns kept in [anomalies.json]. *)
Record AnomalyRecord : Type := {
  ar_transaction_id : string;
  ar_timestamp : Timestamp;
  ar_category : string;
  ar_price : Q;
  ar_price_z : Q;
  ar_anomaly_label : string;
  ar_anomaly_notes : string
}.

(** What [json.dump] writes, one constructor per file. *)
Inductive Artifact : Type :=
  | NetworkJson (e : NetworkExport)
  | TimelineJson (e : TimelineExport)
  | ParticlesJson (e : ParticleExport)
  | GeoFlowsJson (e : GeoExport)
  | WashRingJson (e : RingExport)
  | MarketplacesJson (e : MarketplaceExport)
  | StatsJson (e : StatsExport)
  | TransactionsJson (e : list TxnRecord)
  | AnomaliesJson (e : list AnomalyRecord)
  | CategoriesJson (e : gmap string CategoryStats).

(** ** The script as a computation over the output directory

    The script is one module body: statements run in order and the first
    exception ends the run, leaving on disk what was written before it. *)

Definition Files : Type := list (string * Artifact).

Definition Script (A : Type) : Type := Files → Files * result A.

#[global] Instance Script_ret : MRet Script := λ A a fs, (fs, Ok a).

#[global] Instance Script_bind : MBind Script := λ A B k m fs,
  match m fs with
  | (fs', Ok a) => k a fs'
  | (fs', Raise e) => (fs', Raise e)
  end.

(** A computation of the script that writes nothing. *)
Definition compute {A} (r : result A) : Script A := λ fs, (fs, r).

(** [with open(path, 'w') as f: json.dump(a, f)] *)
Definition dump (path : string) (a : Artifact) : Script unit :=
  λ fs, ((fs ++ [(path, a)])%list, Ok tt).

(** The files on disk after a run, and the exception that ended it. *)
Definition written {A} (m : Script A) : list string := (m []).1.*1.
Definition outcome {A} (m : Script A) : result A := (m []).2.

(** Order of [Timestamp]s. *)
Definition ts_key (t : Timestamp) : list nat :=
  [ts_year t; ts_month t; ts_day t; ts_hour t; ts_minute t; ts_second t].

Fixpoint lex_leb (a b : list nat) : bool :=
  match a, b with
  | [], _ => true
  | _ :: _, [] => false
  | x :: a', y :: b' =>
      if (x <? y)%nat then true
      else if (y <? x)%nat then false else lex_leb a' b'
  end.

Definition ts_leb (a b : Timestamp) : bool := lex_leb (ts_key a) (ts_key b).

(** [Series.min()] and [Series.max()] of the timestamp column; [None] is
    the missing value of an empty column. *)
Definition ts_min (l : list Timestamp) : option Timestamp :=
  foldr (λ a acc, match acc with
                  | None => Some a
                  | Some b => Some (if ts_leb a b then a else b)
                  end) None l.

Definition ts_max (l : list Timestamp) : option Timestamp :=
  foldr (λ a acc, match acc with
                  | None => Some a
                  | Some b => Some (if ts_leb a b then b else a)
                  end) None l.

(** ** View 1: the network graph *)

Section Views.
Context (transactions : list Txn) (users : list User).
(** The rows [DataFrame.sample] draws. *)
Context (choose : nat → list Txn → list Txn).
Context `{Kernels}.

(** The type of the [price] column of the ledger, which every frame cut
    out of the ledger keeps. *)
Definition price_dtype : dtype := column_dtype (price <$> transactions).

(** [float(rows['price'].sum())] *)
Definition price_sum (rows : list Txn) : Q :=
  float_of price_dtype (sum price_dtype (price <$> rows)).

Definition top_buyers : list string :=
  top 80 (buyer_id <$> transactions).
Definition top_sellers : list string :=
  top 80 (seller_id <$> transactions).

(** [list(set(top_buyers) | set(top_sellers))] *)
Definition active_users : list string :=
  elements (list_to_set top_buyers ∪ list_to_set top_sellers : gset string).

Definition user_txns (u : string) : list Txn :=
  filter (λ t, buyer_id t = u ∨ seller_id t = u) transactions.

Definition user_info (u : string) : list User :=
  filter (λ r, user_id r = u) users.

Definition node_of (u : string) : Node :=
  {| node_id := u;
     node_tx_count := length (user_txns u);
     node_anomaly_count := count_true (is_anomaly <$> user_txns u);
     node_total_value := price_sum (user_txns u);
     node_region :=
       match user_info u with
       | r :: _ => match region r with Some s => s | None => "Unknown" end
       | [] => "Unknown"
       end;
     node_kyc :=
       match user_info u with
       | r :: _ => match kyc_verified r with Some b => b | None => false end
       | [] => false
       end |}.

Definition node_data : list Node := node_of <$> active_users.

Definition network_txns : list Txn :=
  filter (λ t, isin (buyer_id t) active_users
               && isin (seller_id t) active_users) transactions.

(** The last aggregation of [edge_groups]:
    [x.mode()[0] if len(x) > 0 else 'normal'].  The index [0] is always
    there for a non-empty column (lemma [mode_nonempty] below). *)
Definition modal_label (x : list string) : string :=
  match x with
  | [] => "normal"
  | _ => default "normal" (mode String.leb x !! 0%nat)
  end.

Definition edge_group_of (g : string * string * list Txn) : EdgeGroup :=
  {| eg_buyer_id := g.1.1;
     eg_seller_id := g.1.2;
     eg_transaction_id := length g.2;
     eg_price := group_sum price_dtype (price <$> g.2);
     eg_price_z := mean (abs_z <$> g.2);
     eg_is_anomaly := count_true (is_anomaly <$> g.2);
     eg_anomaly_label := modal_label (anomaly_label <$> g.2) |}.

Definition edge_groups : list EdgeGroup :=
  edge_group_of
    <$> groupby pair_leb (λ t, (buyer_id t, seller_id t)) network_txns.

Definition edge_of (row : EdgeGroup) : Edge :=
  {| edge_source := eg_buyer_id row;
     edge_target := eg_seller_id row;
     edge_tx_count := eg_transaction_id row;
     edge_total_value := float_of price_dtype (eg_price row);
     edge_avg_price_z := eg_price_z row;
     edge_anomaly_count := eg_is_anomaly row;
     edge_anomaly_type := eg_anomaly_label row;
     edge_intensity := py_min (fdiv_const (eg_price_z row) 2) 1 |}.

Definition edge_data : list Edge := edge_of <$> edge_groups.

(** ** View 2: the anomaly timeline *)

Definition anomalies : list Txn :=
  filter (λ t, is_anomaly t) transactions.

Definition daily_of (g : nat * list Txn) : Daily :=
  {| daily_day := g.1;
     daily_count := length g.2;
     daily_value :=
       float_of price_dtype (group_sum price_dtype (price <$> g.2));
     daily_intensity := mean (abs_z <$> g.2) |}.

Definition temporal_of (anomaly_type : string) : Temporal :=
  let type_data := filter (λ t, anomaly_label t = anomaly_type) anomalies in
  {| temporal_type := anomaly_type;
     temporal_total_count := length type_data;
     temporal_avg_price := mean (price <$> type_data);
     temporal_avg_z_score := mean (abs_z <$> type_data);
     temporal_daily_counts :=
       daily_of <$> groupby Nat.leb (λ t, ts_day (timestamp t)) type_data |}.

Definition temporal_data : list Temporal :=
  temporal_of <$> unique (anomaly_label <$> anomalies).

(** ** View 3: the particle field *)

Definition categories : list string := unique (category <$> transactions).

Definition high_intensity : list Txn :=
  filter (λ t, negb (Qle_bool (abs_z t) 2)) transactions.

(** [transactions[|price_z| <= 2].sample(n=min(2000, len(transactions)))] *)
Definition normal_sample : result (list Txn) :=
  sample choose (Nat.min 2000 (length transactions))
         (filter (λ t, Qle_bool (abs_z t) 2) transactions).

Definition particle_of (cat_idx : nat) (cat : string) (txn : Txn)
    : Particle :=
  let deviation_abs := Qabs (price_z txn) in
  {| particle_base_x := cat_idx * 30;
     particle_z := price_z txn * 3;
     particle_size := 2 + deviation_abs * 2;
     particle_intensity := py_min (Num (deviation_abs / 4)) 1;
     particle_is_flare := negb (Qle_bool deviation_abs 2);
     particle_category := cat;
     particle_price := price txn;
     particle_z_score := price_z txn;
     particle_anomaly_type := anomaly_label txn |}.

(** The two nested loops over [enumerate(categories)] and the rows of
    the category. *)
Definition particles_of (particle_txns : list Txn) : list Particle :=
  mjoin (imap (λ cat_idx cat,
                 particle_of cat_idx cat
                   <$> filter (λ t, category t = cat) particle_txns)
              categories).

Definition particle_data : result (list Particle) :=
  bind normal_sample (λ drawn, Ok (particles_of (high_intensity ++ drawn))).

Definition particle_export : result ParticleExport :=
  bind particle_data (λ ps,
    Ok {| particles := ps;
          particle_categories :=
            imap (λ idx cat,
                    {| centre_name := cat;
                       centre_x := idx * 30;
                       centre_total :=
                         length (filter (λ t, category t = cat) transactions);
                       centre_anomalies :=
                         length (filter (λ t, category t = cat) anomalies) |})
                 categories;
          total_particles := length ps;
          flare_count :=
            length (filter (λ p, particle_is_flare p = true) ps) |}).
(** ** View 4: the geographic flows *)

Definition region_table : list (string * Coords) :=
  [ ("EU", {| lat := 50; lon := 10; name := "Europe" |});
    ("SEA", {| lat := 10; lon := 105; name := "Southeast Asia" |});
    ("EAST_ASIA", {| lat := 35; lon := 120; name := "East Asia" |});
    ("OCE", {| lat := -25; lon := 135; name := "Oceania" |});
    ("LATAM", {| lat := -10; lon := -60; name := "Latin America" |}) ].

Definition region_coords : gmap string Coords := list_to_map region_table.

(** [region_coords[code]] *)
Definition region_lookup (code : string) : result Coords :=
  match region_coords !! code with
  | Some c => Ok c
  | None => Raise (KeyError code)
  end.

Definition flow_group_of (g : string * string * string * list Txn)
    : FlowGroup :=
  {| fg_buyer_region := g.1.1.1;
     fg_seller_region := g.1.1.2;
     fg_marketplace := g.1.2;
     fg_transaction_id := length g.2;
     fg_price := group_sum price_dtype (price <$> g.2);
     fg_is_anomaly := count_true (is_anomaly <$> g.2) |}.

(** The rows [groupby] puts in a group: it leaves out, without a word,
    every row with a missing cell in one of the three key columns. *)
Definition flow_keyed : list Txn :=
  filter (λ t, negb (missing_cell (buyer_region t))
               && negb (missing_cell (seller_region t))
               && negb (missing_cell (marketplace t))) transactions.

(** The grouped ledger with the self-loops removed. *)
Definition flows : list FlowGroup :=
  filter (λ row, fg_buyer_region row ≠ fg_seller_region row)
    (flow_group_of
       <$> groupby triple_leb
             (λ t, (buyer_region t, seller_region t, marketplace t))
             flow_keyed).

Definition flow_of (row : FlowGroup) : result Flow :=
  bind (region_lookup (fg_buyer_region row)) (λ source_coords,
  bind (region_lookup (fg_seller_region row)) (λ target_coords,
    Ok {| flow_source := fg_buyer_region row;
          flow_target := fg_seller_region row;
          flow_source_coords := source_coords;
          flow_target_coords := target_coords;
          flow_marketplace := fg_marketplace row;
          flow_tx_count := fg_transaction_id row;
          flow_total_value := float_of price_dtype (fg_price row);
          flow_anomaly_count := fg_is_anomaly row;
          flow_anomaly_rate :=
            np_div (fg_is_anomaly row) (fg_transaction_id row);
          flow_intensity :=
            py_min (np_div (fg_is_anomaly row) (fg_transaction_id row)) 1
       |})).

(** The loop building [flow_data]: the first failing row ends it. *)
Fixpoint flow_rows (rows : list FlowGroup) : result (list Flow) :=
  match rows with
  | [] => Ok []
  | row :: rest =>
      bind (flow_of row) (λ f,
      bind (flow_rows rest) (λ fs, Ok (f :: fs)))
  end.

Definition flow_data : result (list Flow) := flow_rows flows.

Definition geo_export : result GeoExport :=
  bind flow_data (λ fd,
    Ok {| geo_flows := fd;
          geo_regions :=
            (λ '(code, coords),
               {| region_code := code;
                  region_coords_of := coords;
                  region_total_transactions :=
                    length (filter (λ t, buyer_region t = code
                                         ∨ seller_region t = code)
                                   transactions) |})
              <$> region_table |}).

(** ** View 5: the wash-trade ring *)

Definition wash_trades : list Txn :=
  filter (λ t, anomaly_label t = "wash_trade_ring") transactions.

Definition ring_users : list string :=
  top 20 ((buyer_id <$> wash_trades) ++ (seller_id <$> wash_trades)).

Definition ring_txns : list Txn :=
  filter (λ t, isin (buyer_id t) ring_users
               && isin (seller_id t) ring_users) transactions.

Definition ring_nodes : list RingNode :=
  imap (λ idx user,
          {| ring_node_id := user;
             ring_position := idx;
             wash_trade_count :=
               length (filter (λ t, buyer_id t = user ∨ seller_id t = user)
                              wash_trades) |})
       ring_users.

Definition ring_edge_of (txn : Txn) : RingEdge :=
  {| ring_source := buyer_id txn;
     ring_target := seller_id txn;
     is_wash_trade := bool_decide (anomaly_label txn = "wash_trade_ring");
     ring_price := price txn;
     ring_timestamp := timestamp txn |}.

(** The loop over [ring_txns] with its membership test. *)
Definition ring_edges : list RingEdge :=
  ring_edge_of
    <$> filter (λ txn, buyer_id txn ∈ ring_users
                       ∧ seller_id txn ∈ ring_users) ring_txns.

Definition ring_export : RingExport :=
  {| ring_export_nodes := ring_nodes;
     ring_export_edges := head 200 ring_edges;
     total_wash_trades := length wash_trades;
     ring_size := length ring_users |}.

(** ** View 6: the marketplace clusters *)

Definition marketplace_centers : list (string * (Z * Z * Z)) :=
  [ ("Prime", (-40, 0, 0)%Z); ("Shadow", (0, 0, 0)%Z);
    ("Arcade", (40, 0, 0)%Z) ].

Definition market_rows (m : string) : list Txn :=
  filter (λ t, marketplace t = m) transactions.

Definition market_point_of (txn : Txn) : MarketPoint :=
  {| point_is_anomaly := is_anomaly txn;
     point_price := price txn;
     point_category := category txn;
     point_anomaly_type := anomaly_label txn |}.

Definition market_stats (m : string) : MarketStats :=
  {| stats_total_transactions := length (market_rows m);
     stats_total_value := price_sum (market_rows m);
     stats_anomaly_count := count_true (is_anomaly <$> market_rows m);
     stats_anomaly_rate := mean_bool (is_anomaly <$> market_rows m) |}.

Definition marketplace_of (mc : string * (Z * Z * Z)) : result Marketplace :=
  bind (sample choose (Nat.min 1000 (length (market_rows mc.1)))
               (market_rows mc.1)) (λ market_txns,
    Ok {| market_name := mc.1;
          market_center := mc.2;
          market_points := market_point_of <$> market_txns;
          market_stats_of := market_stats mc.1 |}).

Fixpoint marketplace_rows (mcs : list (string * (Z * Z * Z)))
    : result (list Marketplace) :=
  match mcs with
  | [] => Ok []
  | mc :: rest =>
      bind (marketplace_of mc) (λ m,
      bind (marketplace_rows rest) (λ ms, Ok (m :: ms)))
  end.

Definition marketplace_data : result (list Marketplace) :=
  marketplace_rows marketplace_centers.

Definition marketplace_export : result MarketplaceExport :=
  bind marketplace_data (λ md,
    Ok {| marketplaces := md;
          total_points :=
            foldr Nat.add 0%nat ((λ m, length (market_points m)) <$> md) |}).

Definition network_export : NetworkExport :=
  {| nodes := node_data;
     edges := edge_data;
     total_nodes := length node_data;
     total_edges := length edge_data |}.

Definition timeline_export : TimelineExport :=
  {| anomaly_types := temporal_data;
     timeline_start := ts_min (timestamp <$> transactions);
     timeline_end := ts_max (timestamp <$> transactions) |}.

(** ** View 7: the stats summary *)

Definition with_label (l : string) : list Txn :=
  filter (λ t, anomaly_label t = l) transactions.

Definition with_category (cat : string) : list Txn :=
  filter (λ t, category t = cat) transactions.

Definition category_stats (cat : string) : CategoryStats :=
  {| cat_total := length (with_category cat);
     cat_anomalies := count_true (is_anomaly <$> with_category cat);
     cat_anomaly_rate := mean_bool (is_anomaly <$> with_category cat) |}.

(** The dictionary comprehension over [transactions['category'].unique()];
    the value stored under a key depends on the key alone. *)
Definition stats_export : StatsExport :=
  {| stats_overview :=
       {| overview_total_transactions := length transactions;
          overview_total_anomalies := count_true (is_anomaly <$> transactions);
          overview_detection_rate := mean_bool (is_anomaly <$> transactions);
          overview_total_volume := price_sum transactions;
          overview_start := ts_min (timestamp <$> transactions);
          overview_end := ts_max (timestamp <$> transactions) |};
     stats_anomaly_breakdown :=
       (λ anom_type,
          {| breakdown_type := anom_type;
             breakdown_count := length (with_label anom_type);
             breakdown_avg_price := mean (price <$> with_label anom_type);
             breakdown_avg_z_score := mean (abs_z <$> with_label anom_type) |})
         <$> unique (anomaly_label <$> anomalies);
     stats_marketplaces :=
       (λ m,
          {| mb_name := m;
             mb_transactions := length (market_rows m);
             mb_anomaly_rate := mean_bool (is_anomaly <$> market_rows m);
             mb_total_value := price_sum (market_rows m) |})
         <$> unique (marketplace <$> transactions);
     stats_categories :=
       list_to_map ((λ cat, (cat, category_stats cat))
                      <$> unique (category <$> transactions)) |}.

(** ** View 8: the dashboard exports *)

Definition txn_record_of (t : Txn) : TxnRecord :=
  {| tr_transaction_id := transaction_id t;
     tr_timestamp := timestamp t;
     tr_buyer_id := buyer_id t;
     tr_seller_id := seller_id t;
     tr_category := category t;
     tr_price := price t;
     tr_marketplace := marketplace t;
     tr_is_anomaly := is_anomaly t;
     tr_anomaly_label := anomaly_label t |}.

Definition transactions_export : result (list TxnRecord) :=
  bind (sample choose (Nat.min 500 (length transactions)) transactions)
       (λ sample_transactions, Ok (txn_record_of <$> sample_transactions)).

(** [anomalies.nlargest(100, 'price_z_abs')].  The column is numeric as
    soon as the ledger has a row; read from a header-only file it is of
    type [object]. *)
Definition top_anomalies : result (list Txn) :=
  nlargest (bool_decide (transactions ≠ [])) 100 abs_z anomalies.

Definition anomaly_record_of (t : Txn) : AnomalyRecord :=
  {| ar_transaction_id := transaction_id t;
     ar_timestamp := timestamp t;
     ar_category := category t;
     ar_price := price t;
     ar_price_z := price_z t;
     ar_anomaly_label := anomaly_label t;
     ar_anomaly_notes := anomaly_notes t |}.

Definition anomalies_export : result (list AnomalyRecord) :=
  bind top_anomalies (λ rows, Ok (anomaly_record_of <$> rows)).

(** [categories_export = stats_export['categories']] *)
Definition categories_export : gmap string CategoryStats :=
  stats_categories stats_export.

(** ** The whole script, top to bottom *)

Definition main : Script unit :=
  dump "network.json" (NetworkJson network_export) ;;
  dump "timeline.json" (TimelineJson timeline_export) ;;
  pe ← compute particle_export ;
  dump "particles.json" (ParticlesJson pe) ;;
  ge ← compute geo_export ;
  dump "geo_flows.json" (GeoFlowsJson ge) ;;
  dump "wash_ring.json" (WashRingJson ring_export) ;;
  me ← compute marketplace_export ;
  dump "marketplaces.json" (MarketplacesJson me) ;;
  dump "stats.json" (StatsJson stats_export) ;;
  te ← compute transactions_export ;
  dump "transactions.json" (TransactionsJson te) ;;
  ae ← compute anomalies_export ;
  dump "anomalies.json" (AnomaliesJson ae) ;;
  dump "categories.json" (CategoriesJson categories_export).
End Views.

(** ** What the generator may draw

    [DataFrame.sample(n)] returns [n] rows of the frame. *)
Definition draws_rows (choose : nat → list Txn → list Txn) : Prop :=
  ∀ n l, (n ≤ length l)%nat → length (choose n l) = n ∧ choose n l ⊆ l.

(** ** Readings of the specification used for comparison *)



(** The five region codes of the specification. *)
Definition region_codes : list string :=
  ["EU"; "SEA"; "EAST_ASIA"; "OCE"; "LATAM"].

(** What an emitted flow holds for the group it comes from. *)
Definition flow_matches (row : FlowGroup) (f : Flow) : Prop :=
  flow_source f = fg_buyer_region row
  ∧ flow_target f = fg_seller_region row
  ∧ (flow_source f, flow_source_coords f) ∈ region_table
  ∧ (flow_target f, flow_target_coords f) ∈ region_table
  ∧ region_coords !! flow_source f = Some (flow_source_coords f)
  ∧ region_coords !! flow_target f = Some (flow_target_coords f).

(** The rows a user takes part in. *)
Definition touches (u : string) (t : Txn) : Prop :=
  buyer_id t = u ∨ seller_id t = u.

#[global] Instance touches_dec u t : Decision (touches u t).
Proof. unfold touches. apply _. Defined.

#[global] Instance Qeq_decision (x y : Q) : Decision (x == y)%Q := Qeq_dec x y.

(** The ids that appear in the wash-trade rows, buyers then sellers. *)
Definition ring_pool (transactions : list Txn) : list string :=
  (buyer_id <$> wash_trades transactions)
    ++ (seller_id <$> wash_trades transactions).


(** ** Small ledgers used as concrete inputs *)

Module Fixtures.

Definition noon (day : nat) : Timestamp :=
  {| ts_year := 2024; ts_month := 3; ts_day := day; ts_hour := 12;
     ts_minute := 0; ts_second := 0 |}.

Definition row (id buyer seller cat : string) (p z : Q)
    (market from_region to_region label : string) : Txn :=
  {| transaction_id := id; timestamp := noon 1;
     buyer_id := buyer; seller_id := seller; category := cat;
     price := p; price_z := z; marketplace := market;
     buyer_region := from_region; seller_region := to_region;
     anomaly_label := label; anomaly_notes := "" |}.

(** One high-intensity row and one ordinary row. *)
Definition ledger_small : list Txn :=
  [ row "t1" "u1" "u2" "skins" 10 3 "Prime" "EU" "SEA" "price_spike";
    row "t2" "u2" "u1" "skins" 5 0 "Prime" "EU" "EU" "normal" ].


(** One row whose seller region is not in the coordinate table. *)
Definition ledger_mars : list Txn :=
  [ row "t1" "u1" "u2" "skins" 10 1 "Prime" "EU" "MARS" "normal" ].

(** One ordinary row, traded on the Prime marketplace. *)
Definition ledger_prime : list Txn :=
  [ row "t1" "u1" "u2" "skins" 10 1 "Prime" "EU" "SEA" "normal" ].

(** A ring of three users with one bystander trade. *)
Definition ledger_ring : list Txn :=
  [ row "t1" "a" "b" "skins" 10 1 "Prime" "EU" "SEA" "wash_trade_ring";
    row "t2" "b" "c" "skins" 12 (-3) "Shadow" "SEA" "OCE" "wash_trade_ring";
    row "t3" "c" "a" "keys" 9 (5 # 2) "Arcade" "OCE" "EU" "price_spike";
    row "t4" "d" "a" "keys" 7 0 "Prime" "LATAM" "EU" "normal" ].

(** A generator that always draws the first rows. *)
Definition first_rows : nat → list Txn → list Txn := take.

(** A numpy that adds without rounding and whose default sort keeps
    equal values in row order. *)
Definition kernels : Kernels :=
  {| add_reduce := exact_sum;
     group_add := exact_sum;
     sort_values_desc := λ R col rows,
       sort_by (λ a b, Qle_bool (col b) (col a)) rows |}.

(** A numpy whose default sort leaves equal values in reverse row
    order. *)
Definition reversing : Kernels :=
  {| add_reduce := exact_sum;
     group_add := exact_sum;
     sort_values_desc := λ R col rows,
       sort_by (λ a b, Qle_bool (col b) (col a)) (reverse rows) |}.

End Fixtures.

(** The concrete inputs below are run on the first of these. *)
#[global] Existing Instance Fixtures.kernels.

(** ** A users table and further ledgers used as concrete inputs *)

Module Tables.

(** One user with a region and no KYC cell, one with neither. *)
Definition users_partial : list User :=
  [ {| user_id := "a"; region := Some "EU"; kyc_verified := None |};
    {| user_id := "b"; region := None; kyc_verified := Some true |};
    {| user_id := "a"; region := Some "SEA"; kyc_verified := Some true |} ].

(** Trades inside one region only, the region not being in the table. *)
Definition ledger_home : list Txn :=
  [ Fixtures.row "t1" "u1" "u2" "skins" 10 1 "Prime" "MARS" "MARS" "normal";
    Fixtures.row "t2" "u2" "u3" "keys" 4 (-1) "Bazaar" "MARS" "MARS"
                 "price_spike" ].

(** Ordinary and anomalous rows, none of high intensity, on two days. *)
Definition ledger_calm : list Txn :=
  [ Fixtures.row "t1" "a" "b" "skins" 10 1 "Prime" "EU" "SEA" "wash_trade_ring";
    Fixtures.row "t2" "b" "a" "skins" 12 (-2) "Shadow" "SEA" "EU"
                 "wash_trade_ring";
    Fixtures.row "t3" "a" "b" "keys" 9 (3 # 2) "Bazaar" "EU" "SEA"
                 "price_spike";
    Fixtures.row "t4" "c" "a" "keys" 7 0 "Prime" "OCE" "OCE" "normal" ].


(** Three anomalies of equal deviation followed by a larger one. *)
Definition ledger_ties : list Txn :=
  [ Fixtures.row "t1" "a" "b" "skins" 10 3 "Prime" "EU" "SEA" "price_spike";
    Fixtures.row "t2" "b" "c" "skins" 12 (-3) "Prime" "EU" "SEA" "price_spike";
    Fixtures.row "t3" "c" "a" "keys" 9 3 "Prime" "EU" "SEA" "price_spike";
    Fixtures.row "t4" "d" "a" "keys" 7 (-4) "Prime" "EU" "SEA" "price_spike" ].

(** A cross-region trade whose buyer region cell reads [NA], and one
    between two regions of the table. *)
Definition ledger_na : list Txn :=
  [ Fixtures.row "t1" "u1" "u2" "skins" 10 1 "Prime" "NA" "EU" "normal";
    Fixtures.row "t2" "u2" "u3" "skins" 4 1 "Prime" "EU" "SEA" "normal" ].

End Tables.

(** * Facts about the pandas operations *)

Section SortFacts.
Context {A : Type} (leb : A → A → bool).

Lemma insert_sorted_Permutation x l : insert_sorted leb x l ≡ₚ x :: l.
Proof.
  induction l as [|y l IH]; simpl; [done|].
  destruct (leb x y); [done|].
  rewrite IH. apply Permutation_swap.
Qed.

Lemma sort_by_Permutation l : sort_by leb l ≡ₚ l.
Proof.
  induction l as [|x l IH]; simpl; [done|].
  by rewrite insert_sorted_Permutation, IH.
Qed.

Lemma elem_of_sort_by x l : x ∈ sort_by leb l ↔ x ∈ l.
Proof. by rewrite sort_by_Permutation. Qed.

Lemma length_sort_by l : length (sort_by leb l) = length l.
Proof. by rewrite sort_by_Permutation. Qed.

Lemma sort_by_nil_inv l : sort_by leb l = [] → l = [].
Proof.
  intros E. apply Permutation_nil_r. rewrite <- E.
  symmetry. apply sort_by_Permutation.
Qed.

(** Rows of one class of a predicate that the order cannot separate keep
    their relative order: this is what makes the sort stable. *)
Lemma filter_insert_sorted (P : A → Prop) `{∀ x, Decision (P x)} x l :
  (∀ y, y ∈ l → P x → P y → leb x y = true) →
  filter P (insert_sorted leb x l) = filter P (x :: l).
Proof.
  induction l as [|y l IH]; intros Hxy; simpl; [done|].
  destruct (leb x y) eqn:E; [done|].
  rewrite !filter_cons. rewrite IH.
  - rewrite filter_cons.
    destruct (decide (P y)) as [Py|]; [|done].
    destruct (decide (P x)) as [Px|]; [|done].
    rewrite Hxy in E; [done|set_solver|done|done].
  - intros z Hz. apply Hxy. set_solver.
Qed.

Lemma filter_sort_by (P : A → Prop) `{∀ x, Decision (P x)} l :
  (∀ x y, P x → P y → leb x y = true) →
  filter P (sort_by leb l) = filter P l.
Proof.
  intros HP. induction l as [|x l IH]; simpl; [done|].
  rewrite filter_insert_sorted by eauto.
  by rewrite !filter_cons, IH.
Qed.

(** Cutting a sorted list after [n] rows leaves in front rows that are
    [leb] to every row cut away. *)
Lemma take_sorted_le n l x y :
  StronglySorted (λ a b, leb a b = true) l →
  x ∈ take n l → y ∈ drop n l → leb x y = true.
Proof.
  intros Hs. revert n. induction Hs as [|z l Hl IH Hz]; intros n.
  - rewrite take_nil. set_solver.
  - destruct n as [|n]; simpl; [set_solver|].
    intros [->|Hx]%elem_of_cons Hy.
    + rewrite Forall_forall in Hz. apply Hz.
      by eapply subseteq_drop.
    + by eapply IH.
Qed.

Lemma take_sorted n l :
  StronglySorted (λ a b, leb a b = true) l →
  StronglySorted (λ a b, leb a b = true) (take n l).
Proof.
  intros Hs. revert n. induction Hs as [|z l Hl IH Hz]; intros [|n]; simpl;
    try constructor; [by apply IH|].
  rewrite Forall_forall in *. intros x Hx. apply Hz.
  by eapply subseteq_take.
Qed.

Context (leb_total : ∀ x y, leb x y = true ∨ leb y x = true).
Context (leb_trans : ∀ x y z, leb x y = true → leb y z = true →
                              leb x z = true).

Lemma insert_sorted_sorted x l :
  StronglySorted (λ a b, leb a b = true) l →
  StronglySorted (λ a b, leb a b = true) (insert_sorted leb x l).
Proof.
  induction 1 as [|y l Hl IH Hy]; simpl.
  - repeat constructor.
  - destruct (leb x y) eqn:E.
    + constructor; [by constructor|].
      constructor; [done|].
      eapply Forall_impl; [exact Hy|]. intros z Hz. eauto.
    + constructor; [done|].
      rewrite insert_sorted_Permutation. constructor; [|done].
      destruct (leb_total x y); congruence.
Qed.

Lemma sort_by_sorted l :
  StronglySorted (λ a b, leb a b = true) (sort_by leb l).
Proof.
  induction l; simpl; [constructor|]. by apply insert_sorted_sorted.
Qed.

End SortFacts.

Section KeyFacts.
Context {K : Type} `{EqDecision K}.
Implicit Types (k : K) (l : list K).

Lemma elem_of_unique k l : k ∈ unique l ↔ k ∈ l.
Proof.
  induction l as [|x l IH]; simpl; [done|].
  rewrite !elem_of_cons, list_elem_of_filter, IH.
  destruct (decide (k = x)); naive_solver.
Qed.

Lemma NoDup_unique l : NoDup (unique l).
Proof.
  induction l as [|x l IH]; simpl; constructor.
  - rewrite list_elem_of_filter. naive_solver.
  - by apply NoDup_filter.
Qed.



Lemma occurrences_le_length k l : (occurrences k l ≤ length l)%nat.
Proof. apply length_filter. Qed.

(** *** [value_counts] *)

Lemma count_desc_total (a b : K * nat) :
  count_desc a b = true ∨ count_desc b a = true.
Proof.
  unfold count_desc. destruct (Nat.leb_spec b.2 a.2); [by left|right].
  apply Nat.leb_le. lia.
Qed.

Lemma count_desc_trans (a b c : K * nat) :
  count_desc a b = true → count_desc b c = true → count_desc a c = true.
Proof. unfold count_desc. rewrite !Nat.leb_le. lia. Qed.

Lemma value_counts_sorted l :
  StronglySorted (λ a b : K * nat, count_desc a b = true) (value_counts l).
Proof.
  apply (sort_by_sorted count_desc); [apply count_desc_total|].
  apply count_desc_trans.
Qed.

Lemma elem_of_value_counts k n l :
  (k, n) ∈ value_counts l ↔ k ∈ l ∧ n = occurrences k l.
Proof.
  unfold value_counts. rewrite elem_of_sort_by, list_elem_of_fmap.
  setoid_rewrite elem_of_unique. naive_solver.
Qed.

Lemma index_value_counts l : index (value_counts l) ≡ₚ unique l.
Proof.
  unfold index, value_counts. rewrite sort_by_Permutation.
  rewrite <- list_fmap_compose. by rewrite list_fmap_id.
Qed.

Lemma top_length n l : length (top n l) = Nat.min n (length (unique l)).
Proof.
  unfold top, index, head. rewrite length_fmap, length_take.
  f_equal. rewrite <- (length_fmap fst).
  apply Permutation_length, index_value_counts.
Qed.

Lemma top_NoDup n l : NoDup (top n l).
Proof.
  unfold top, index, head. rewrite fmap_take.
  eapply sublist_NoDup; [|apply sublist_take].
  fold (index (value_counts l)).
  rewrite index_value_counts. apply NoDup_unique.
Qed.

Lemma top_subseteq n l k : k ∈ top n l → k ∈ l.
Proof.
  unfold top, index, head. rewrite fmap_take.
  intros Hk%subseteq_take. fold (index (value_counts l)) in Hk.
  rewrite index_value_counts in Hk. by apply elem_of_unique.
Qed.

(** No value left out of the top [n] is more frequent than a value in
    it. *)
Lemma top_most_frequent n l u v :
  u ∈ top n l → v ∈ l → v ∉ top n l →
  (occurrences v l ≤ occurrences u l)%nat.
Proof.
  unfold top, index, head. intros Hu Hv Hnv.
  apply list_elem_of_fmap in Hu as ([u' cu] & -> & Hu). simpl.
  assert (Hcu : cu = occurrences u' l).
  { apply subseteq_take in Hu. by apply elem_of_value_counts in Hu as [_ ?]. }
  assert (Hvd : (v, occurrences v l) ∈ drop n (value_counts l)).
  { assert (Hin : (v, occurrences v l) ∈ value_counts l)
      by by apply elem_of_value_counts.
    rewrite <- (take_drop n (value_counts l)) in Hin.
    apply elem_of_app in Hin as [Hin|Hin]; [|done].
    destruct Hnv. apply list_elem_of_fmap. by exists (v, occurrences v l). }
  pose proof (take_sorted_le count_desc n _ _ _ (value_counts_sorted l) Hu Hvd)
    as Hle.
  unfold count_desc in Hle. simpl in Hle. apply Nat.leb_le in Hle. lia.
Qed.

(** *** [mode] *)






End KeyFacts.

Section GroupFacts.
Context {K R : Type} `{EqDecision K}.
Context (leb : K → K → bool) (key : R → K).

Lemma elem_of_groupby k rows (l : list R) :
  (k, rows) ∈ groupby leb key l
  ↔ k ∈ key <$> l ∧ rows = filter (λ r, key r = k) l.
Proof.
  unfold groupby. rewrite list_elem_of_fmap.
  setoid_rewrite elem_of_sort_by. setoid_rewrite elem_of_unique.
  naive_solver.
Qed.

(** A group that [groupby] returns has at least one row. *)
Lemma groupby_nonempty k rows (l : list R) :
  (k, rows) ∈ groupby leb key l → rows ≠ [].
Proof.
  rewrite elem_of_groupby. intros [Hk ->] E.
  apply list_elem_of_fmap in Hk as (r & -> & Hr).
  assert (Hin : r ∈ filter (λ r', key r' = key r) l)
    by (by apply list_elem_of_filter).
  rewrite E in Hin. by apply elem_of_nil in Hin.
Qed.
End GroupFacts.

(** ** The order of strings *)

Lemma string_leb_spec (a b : string) :
  String.leb a b = true ↔ a = b ∨ String_as_OT.lt a b.
Proof.
  unfold String.leb.
  destruct (a ?= b)%string eqn:E.
  - apply String.compare_eq_iff in E. naive_solver.
  - apply String_as_OT.cmp_lt in E. naive_solver.
  - split; [done|]. intros [->|Hlt].
    + assert (Hc : (b ?= b)%string = Eq) by (by apply String_as_OT.cmp_eq).
      congruence.
    + apply String_as_OT.cmp_lt in Hlt. unfold String_as_OT.cmp in Hlt.
      congruence.
Qed.

Lemma string_leb_refl (a : string) : String.leb a a = true.
Proof. apply string_leb_spec. by left. Qed.


(** ** Rationals and computed floats *)

Lemma Qnat_nonneg n : (0 <= Qnat n)%Q.
Proof.
  unfold Qnat. change 0%Q with (inject_Z 0). rewrite <- Zle_Qle. lia.
Qed.

Lemma Qnat_pos n : (0 < n)%nat → (0 < Qnat n)%Q.
Proof.
  intros Hn. unfold Qnat. change 0%Q with (inject_Z 0).
  rewrite <- Zlt_Qlt. lia.
Qed.

Lemma Qnat_le k n : (k ≤ n)%nat → (Qnat k <= Qnat n)%Q.
Proof. intros Hkn. unfold Qnat. rewrite <- Zle_Qle. lia. Qed.

Lemma sum_nonneg (xs : list Q) :
  Forall (λ x, 0 <= x)%Q xs → (0 <= exact_sum xs)%Q.
Proof.
  induction 1 as [|x xs Hx _ IH]; simpl; [apply Qle_refl|].
  change 0%Q with (0 + 0)%Q. by apply Qplus_le_compat.
Qed.

Lemma count_true_le (bs : list bool) : (count_true bs ≤ length bs)%nat.
Proof. apply length_filter. Qed.

(** A ratio of counts [k / n] with [k <= n] and [n] positive is a number
    of the unit interval. *)
Lemma np_div_in_unit k n : (k ≤ n)%nat → (0 < n)%nat → in_unit (np_div k n).
Proof.
  intros Hkn Hn. unfold np_div. destruct n as [|n]; [lia|]. simpl. split.
  - apply Qle_shift_div_l; [by apply Qnat_pos|].
    rewrite Qmult_0_l. apply Qnat_nonneg.
  - apply Qle_shift_div_r; [by apply Qnat_pos|].
    rewrite Qmult_1_l. by apply Qnat_le.
Qed.

Lemma mean_bool_in_unit (bs : list bool) : bs ≠ [] → in_unit (mean_bool bs).
Proof.
  intros Hbs. apply np_div_in_unit; [apply count_true_le|].
  destruct bs; [done|simpl; lia].
Qed.

(** The mean of a non-empty column of non-negative numbers is a
    non-negative number. *)
Lemma mean_nonneg (xs : list Q) :
  xs ≠ [] → Forall (λ x, 0 <= x)%Q xs → ∃ q, mean xs = Num q ∧ (0 <= q)%Q.
Proof.
  intros Hne Hxs. destruct xs as [|x xs]; [done|].
  eexists. split; [reflexivity|].
  apply Qle_shift_div_l; [apply Qnat_pos; simpl; lia|].
  rewrite Qmult_0_l. by apply sum_nonneg.
Qed.

(** The clamp [min(q, 1.0)] of a non-negative number. *)
Lemma py_min_in_unit (q : Q) : (0 <= q)%Q → in_unit (py_min (Num q) 1).
Proof.
  intros Hq. simpl. destruct (Qle_bool q 1) eqn:E; simpl.
  - split; [done|]. by apply Qle_bool_iff.
  - split; [discriminate|apply Qle_refl].
Qed.

Lemma abs_z_nonneg (l : list Txn) : Forall (λ x, 0 <= x)%Q (abs_z <$> l).
Proof.
  apply Forall_fmap, Forall_forall. intros t _. apply Qabs_nonneg.
Qed.

Lemma first_rows_draws : draws_rows Fixtures.first_rows.
Proof.
  intros n l Hn. unfold Fixtures.first_rows. split.
  - rewrite length_take. lia.
  - apply subseteq_take.
Qed.

Lemma filter_all {A} (P : A → Prop) `{∀ x, Decision (P x)} (l : list A) :
  (∀ x, x ∈ l → P x) → filter P l = l.
Proof.
  induction l as [|x l IH]; intros HP; [done|].
  rewrite filter_cons_True by (apply HP; set_solver).
  f_equal. apply IH. intros y Hy. apply HP. set_solver.
Qed.

(** * The particle field sampler *)

Section ParticleFacts.
Context (transactions : list Txn) (choose : nat → list Txn → list Txn).

(** Every row of the frame lands in exactly one category cluster. *)
Lemma length_clusters {B} (f : nat → string → Txn → B) (cats : list string)
    (rows : list Txn) :
  NoDup cats →
  length (mjoin (imap (λ i c, f i c <$> filter (λ t, category t = c) rows) cats))
  = length (filter (λ t, category t ∈ cats) rows).
Proof.
  revert f. induction cats as [|c cats IH]; intros f Hnd.
  - simpl. induction rows as [|t rows IHr]; [done|].
    rewrite filter_cons. case_decide; [set_solver|done].
  - apply NoDup_cons in Hnd as [Hc Hnd].
    rewrite imap_cons. simpl. rewrite length_app, length_fmap.
    match goal with
    | |- (_ + ?n = _)%nat =>
        replace n with (length (filter (λ t, category t ∈ cats) rows))
          by (symmetry; exact (IH (λ i, f (S i)) Hnd))
    end.
    clear IH. induction rows as [|t rows IHr]; [done|].
    rewrite !filter_cons.
    destruct (decide (category t = c)) as [->|Hne].
    + rewrite decide_False by done.
      rewrite decide_True by set_solver. simpl. lia.
    + destruct (decide (category t ∈ cats)).
      * rewrite decide_True by set_solver. simpl. lia.
      * rewrite decide_False by set_solver. lia.
Qed.

Lemma particles_of_length (rows : list Txn) :
  rows ⊆ transactions →
  length (particles_of transactions rows) = length rows.
Proof.
  intros Hsub. unfold particles_of.
  rewrite length_clusters by apply NoDup_unique.
  f_equal. apply filter_all. intros t Ht. unfold categories.
  apply elem_of_unique, list_elem_of_fmap. exists t. split; [done|].
  by apply Hsub.
Qed.

(** When the draw succeeds, the particle count is the one the
    specification gives. *)
Lemma particle_count_when_drawn ps :
  draws_rows choose →
  particle_data transactions choose = Ok ps →
  length ps
  = (length (high_intensity transactions)
     + Nat.min 2000 (length (filter (λ t, Qle_bool (abs_z t) 2) transactions)))%nat.
Proof.
  intros Hch. unfold particle_data, normal_sample, sample.
  set (rest := filter (λ t, Qle_bool (abs_z t) 2) transactions).
  case_decide as Hn; cbn [bind]; [|done]. intros E.
  assert (ps = particles_of transactions
                 (high_intensity transactions
                    ++ choose (Nat.min 2000 (length transactions)) rest))
    as -> by congruence.
  clear E.
  destruct (Hch _ _ Hn) as [Hlen Hsub].
  rewrite particles_of_length.
  - rewrite length_app, Hlen.
    pose proof (length_filter (λ t, Qle_bool (abs_z t) 2) transactions).
    fold rest in H. lia.
  - intros t [Ht|Ht]%elem_of_app.
    + by apply list_elem_of_filter in Ht as [_ ?].
    + apply Hsub in Ht. by apply list_elem_of_filter in Ht as [_ ?].
Qed.

Example particles_of_an_ordinary_ledger :
  bind (particle_data Fixtures.ledger_prime Fixtures.first_rows)
       (λ ps, Ok (length ps))
  = Ok 1%nat.
Proof. reflexivity. Qed.

Example particles_of_a_ledger_with_flares :
  particle_data Fixtures.ledger_ring Fixtures.first_rows = Raise ValueError.
Proof. reflexivity. Qed.

(** C1. The sample of the remainder is requested with size
    [min(2000, len(transactions))], the size of the whole ledger and not of
    the remainder: when the remainder has fewer rows than that, the draw
    raises and no particle is emitted. *)
Theorem particle_sampler_raises_on_small_remainder :
  (length (filter (λ t, Qle_bool (abs_z t) 2) transactions)
   < Nat.min 2000 (length transactions))%nat →
  normal_sample transactions choose = Raise ValueError
  ∧ particle_data transactions choose = Raise ValueError.
Proof.
  intros Hlt. unfold particle_data, normal_sample, sample.
  rewrite decide_False by lia. done.
Qed.
End ParticleFacts.

Lemma particle_sampler_raises_on_small_remainder_witness :
  normal_sample Fixtures.ledger_small Fixtures.first_rows = Raise ValueError
  ∧ particle_data Fixtures.ledger_small Fixtures.first_rows = Raise ValueError.
Proof.
  apply (particle_sampler_raises_on_small_remainder Fixtures.ledger_small).
  vm_compute. lia.
Defined.

(** * The graph aggregator: edges *)


Lemma elem_of_edge_data `{Kernels} (transactions : list Txn) (e : Edge) :
  e ∈ edge_data transactions →
  ∃ rows, rows ≠ []
    ∧ rows = filter (λ t, (buyer_id t, seller_id t)
                          = (edge_source e, edge_target e))
                    (network_txns transactions)
    ∧ e = edge_of transactions
          (edge_group_of transactions ((edge_source e, edge_target e), rows)).
Proof.
  unfold edge_data, edge_groups.
  intros (eg & -> & Heg)%list_elem_of_fmap.
  apply list_elem_of_fmap in Heg as ([[b s] rows] & -> & Hg).
  exists rows. simpl. split_and!; [by eapply groupby_nonempty| |done].
  by apply elem_of_groupby in Hg as [_ ->].
Qed.

Example mode_of_a_tie :
  mode String.leb ["wash_trade_ring"; "normal"] = ["normal"; "wash_trade_ring"].
Proof. reflexivity. Qed.

Example modal_label_of_a_majority :
  modal_label ["price_spike"; "normal"; "price_spike"] = "price_spike".
Proof. reflexivity. Qed.




(** * The marketplace clusters *)

Section MarketFacts.
Context `{Kernels} (transactions : list Txn).
Context (choose : nat → list Txn → list Txn).

(** A sample of [min(k, len(rows))] rows never raises. *)
Lemma sample_min_ok (k : nat) (rows : list Txn) :
  sample choose (Nat.min k (length rows)) rows
  = Ok (choose (Nat.min k (length rows)) rows).
Proof. unfold sample. rewrite decide_True; [done|lia]. Qed.

Lemma marketplace_rows_ok (mcs : list (string * (Z * Z * Z))) :
  ∃ md, marketplace_rows transactions choose mcs = Ok md
        ∧ market_name <$> md = mcs.*1
        ∧ ∀ m, m ∈ md →
               market_stats_of m = market_stats transactions (market_name m).
Proof.
  induction mcs as [|mc mcs (md & E & Hnames & Hstats)].
  - exists []. split_and!; [done..|]. by intros m ?%elem_of_nil.
  - cbn [marketplace_rows]. unfold marketplace_of.
    rewrite sample_min_ok. cbn [bind]. rewrite E. cbn [bind].
    eexists. split_and!; [done| |].
    + rewrite !fmap_cons. cbn [market_name]. by rewrite Hnames.
    + intros m [->|Hm]%elem_of_cons; [done|]. by apply Hstats.
Qed.

Lemma marketplace_data_ok :
  ∃ md, marketplace_data transactions choose = Ok md
        ∧ market_name <$> md = ["Prime"; "Shadow"; "Arcade"]
        ∧ ∀ m, m ∈ md →
               market_stats_of m = market_stats transactions (market_name m).
Proof. apply marketplace_rows_ok. Qed.

Lemma marketplace_export_ok :
  ∃ me, marketplace_export transactions choose = Ok me.
Proof.
  unfold marketplace_export.
  destruct marketplace_data_ok as (md & -> & _). by eexists.
Qed.

(** The entry of a listed marketplace is always emitted, with the stats
    of its rows. *)
Lemma marketplace_entry_emitted (name : string) :
  name ∈ marketplace_centers.*1 →
  ∃ md m, marketplace_data transactions choose = Ok md ∧ m ∈ md
          ∧ market_name m = name
          ∧ market_stats_of m = market_stats transactions name.
Proof.
  intros Hname. destruct marketplace_data_ok as (md & E & Hnames & Hstats).
  change (marketplace_centers.*1) with ["Prime"; "Shadow"; "Arcade"] in Hname.
  rewrite <- Hnames in Hname.
  apply list_elem_of_fmap in Hname as (m & -> & Hm).
  exists md, m. split_and!; [done..|]. by apply Hstats.
Qed.

(** C4. A marketplace of the fixed set with no transaction is still
    emitted, and its [anomaly_rate] is the mean of an empty column: NaN. *)
Theorem empty_marketplace_emits_nan (name : string) :
  name ∈ marketplace_centers.*1 →
  market_rows transactions name = [] →
  ∃ md m, marketplace_data transactions choose = Ok md ∧ m ∈ md
          ∧ market_name m = name
          ∧ stats_total_transactions (market_stats_of m) = 0%nat
          ∧ stats_anomaly_rate (market_stats_of m) = NaN.
Proof.
  intros Hname Hrows.
  destruct (marketplace_entry_emitted name Hname) as (md & m & E & Hm & Hn & Hs).
  exists md, m. rewrite Hs. unfold market_stats. cbn. rewrite Hrows.
  by split_and!.
Qed.

(** C9. For a marketplace of the fixed set with no transaction the
    emitted [anomaly_rate] is not a number of the unit interval. *)
Theorem empty_marketplace_rate_outside_unit (name : string) :
  name ∈ marketplace_centers.*1 →
  market_rows transactions name = [] →
  ∃ md m, marketplace_data transactions choose = Ok md ∧ m ∈ md
          ∧ market_name m = name
          ∧ ¬ in_unit (stats_anomaly_rate (market_stats_of m)).
Proof.
  intros Hname Hrows.
  destruct (marketplace_entry_emitted name Hname) as (md & m & E & Hm & Hn & Hs).
  exists md, m. split_and!; [done..|].
  rewrite Hs. unfold market_stats. cbn. rewrite Hrows. cbn. tauto.
Qed.

(** With at least one transaction the rate is in the unit interval. *)
Lemma market_stats_rate_in_unit (name : string) :
  market_rows transactions name ≠ [] →
  in_unit (stats_anomaly_rate (market_stats transactions name)).
Proof.
  intros Hrows. cbn. apply mean_bool_in_unit. by intros ?%fmap_nil_inv.
Qed.
End MarketFacts.

Lemma empty_marketplace_emits_nan_witness :
  ∃ md m, marketplace_data Fixtures.ledger_prime Fixtures.first_rows = Ok md
          ∧ m ∈ md ∧ market_name m = "Arcade"
          ∧ stats_total_transactions (market_stats_of m) = 0%nat
          ∧ stats_anomaly_rate (market_stats_of m) = NaN.
Proof.
  apply (empty_marketplace_emits_nan Fixtures.ledger_prime
           Fixtures.first_rows "Arcade").
  - vm_compute. do 2 apply list_elem_of_further. apply list_elem_of_here.
  - reflexivity.
Defined.

Lemma empty_marketplace_rate_outside_unit_witness :
  ∃ md m, marketplace_data Fixtures.ledger_prime Fixtures.first_rows = Ok md
          ∧ m ∈ md ∧ market_name m = "Shadow"
          ∧ ¬ in_unit (stats_anomaly_rate (market_stats_of m)).
Proof.
  apply (empty_marketplace_rate_outside_unit Fixtures.ledger_prime
           Fixtures.first_rows "Shadow").
  - vm_compute. apply list_elem_of_further, list_elem_of_here.
  - reflexivity.
Defined.

(** * The run of the whole script *)

Section RunFacts.
Context `{Kernels} (transactions : list Txn) (users : list User).
Context (choose : nat → list Txn → list Txn).

Lemma transactions_export_ok :
  ∃ te, transactions_export transactions choose = Ok te.
Proof.
  unfold transactions_export. rewrite sample_min_ok. by eexists.
Qed.

(** C3 (as amended). The script computes and writes its views in a fixed
    order and stops at the first computation that raises: the files written
    before it are on disk, no later file is, and the exception reaches the
    caller. *)
Theorem main_stops_at_first_failure :
  let run := main transactions users choose in
  match particle_export transactions choose, geo_export transactions,
        anomalies_export transactions with
  | Raise e, _, _ =>
      written run = ["network.json"; "timeline.json"]
      ∧ outcome run = Raise e
  | Ok _, Raise e, _ =>
      written run = ["network.json"; "timeline.json"; "particles.json"]
      ∧ outcome run = Raise e
  | Ok _, Ok _, Raise e =>
      written run
      = ["network.json"; "timeline.json"; "particles.json"; "geo_flows.json";
         "wash_ring.json"; "marketplaces.json"; "stats.json";
         "transactions.json"]
      ∧ outcome run = Raise e
  | Ok _, Ok _, Ok _ =>
      written run
      = ["network.json"; "timeline.json"; "particles.json"; "geo_flows.json";
         "wash_ring.json"; "marketplaces.json"; "stats.json";
         "transactions.json"; "anomalies.json"; "categories.json"]
      ∧ outcome run = Ok ()
  end.
Proof.
  intros run. subst run. unfold main, written, outcome.
  destruct (marketplace_export_ok transactions choose) as [me Eme].
  destruct transactions_export_ok as [te Ete].
  unfold mbind, Script_bind, compute, dump.
  destruct (particle_export transactions choose) as [pe|e]; [|done].
  destruct (geo_export transactions) as [ge|e]; [|done].
  rewrite Eme, Ete.
  by destruct (anomalies_export transactions) as [ae|e].
Qed.
End RunFacts.

(** C3, as stated, fails: when the geographic flows meet a region code
    outside the table, the three views after them are not produced. *)
Lemma later_views_lost_when_flows_fail :
  flow_data Fixtures.ledger_mars = Raise (KeyError "MARS")
  ∧ let out := written (main Fixtures.ledger_mars [] Fixtures.first_rows) in
    ("wash_ring.json" ∉ out) ∧ ("marketplaces.json" ∉ out)
    ∧ ("stats.json" ∉ out).
Proof.
  split; [reflexivity|].
  assert (E : written (main Fixtures.ledger_mars [] Fixtures.first_rows)
              = ["network.json"; "timeline.json"; "particles.json"])
    by (vm_compute; reflexivity).
  cbn zeta. rewrite E.
  split_and!; intros H;
    repeat (apply elem_of_cons in H as [H|H]; [discriminate H|]);
    by apply elem_of_nil in H.
Qed.

(** * The geographic flows *)

(** The coordinate table has exactly the five region codes. *)
Lemma region_lookup_known (code : string) :
  code ∈ region_codes → ∃ c, region_lookup code = Ok c
                             ∧ (code, c) ∈ region_table.
Proof.
  unfold region_codes. intros H.
  repeat (apply elem_of_cons in H as [->|H];
          [eexists; split; [reflexivity|]; unfold region_table;
           repeat first [apply list_elem_of_here|apply list_elem_of_further]|]).
  by apply elem_of_nil in H.
Qed.

Lemma region_lookup_unknown (code : string) :
  code ∉ region_codes → region_lookup code = Raise (KeyError code).
Proof.
  intros Hcode. unfold region_lookup.
  destruct (region_coords !! code) as [c|] eqn:E; [|done].
  destruct Hcode. apply elem_of_list_to_map_2 in E.
  apply (list_elem_of_fmap_2 fst) in E. exact E.
Qed.

Lemma region_lookup_ok_inv (code : string) (c : Coords) :
  region_lookup code = Ok c → region_coords !! code = Some c.
Proof.
  unfold region_lookup. destruct (region_coords !! code); congruence.
Qed.

Lemma flow_of_cases (transactions : list Txn)
    (row : FlowGroup) :
  (∃ code, flow_of transactions row = Raise (KeyError code) ∧ (code ∉ region_codes)
           ∧ ((fg_buyer_region row ∉ region_codes)
              ∨ (fg_seller_region row ∉ region_codes)))
  ∨ (∃ f, flow_of transactions row = Ok f ∧ fg_buyer_region row ∈ region_codes
          ∧ fg_seller_region row ∈ region_codes ∧ flow_matches row f).
Proof.
  unfold flow_of.
  destruct (decide (fg_buyer_region row ∈ region_codes)) as [Hb|Hb].
  - destruct (region_lookup_known _ Hb) as (cb & Eb & Hcb).
    destruct (decide (fg_seller_region row ∈ region_codes)) as [Hs|Hs].
    + destruct (region_lookup_known _ Hs) as (cs & Es & Hcs).
      right. rewrite Eb, Es. cbn [bind]. eexists. split; [done|].
      unfold flow_matches. cbn.
      split_and!; try done; by apply region_lookup_ok_inv.
    + left. rewrite Eb, (region_lookup_unknown _ Hs). cbn [bind]. eauto.
  - left. rewrite (region_lookup_unknown _ Hb). cbn [bind]. eauto.
Qed.



Lemma flow_rows_known (transactions : list Txn)
    (rows : list FlowGroup) :
  (∀ row, row ∈ rows → fg_buyer_region row ∈ region_codes
                       ∧ fg_seller_region row ∈ region_codes) →
  ∃ fd, flow_rows transactions rows = Ok fd.
Proof.
  induction rows as [|row rows IH]; intros Hknown; [by eexists|].
  cbn [flow_rows].
  destruct (flow_of_cases transactions row) as [(code & _ & _ & Hbad)|(f & -> & _)].
  - destruct (Hknown row) as [? ?]; [set_solver|tauto].
  - destruct IH as [fd ->]; [|cbn [bind]; by eexists].
    intros r Hr. apply Hknown. set_solver.
Qed.


Lemma elem_of_flow_keyed (transactions : list Txn) (t : Txn) :
  t ∈ flow_keyed transactions
  ↔ t ∈ transactions
    ∧ (buyer_region t ∉ na_values) ∧ (seller_region t ∉ na_values)
    ∧ (marketplace t ∉ na_values).
Proof.
  unfold flow_keyed. rewrite list_elem_of_filter, !andb_True, !negb_True.
  unfold missing_cell. rewrite !bool_decide_spec. tauto.
Qed.

Lemma elem_of_flows `{Kernels} (transactions : list Txn) (row : FlowGroup) :
  row ∈ flows transactions
  ↔ fg_buyer_region row ≠ fg_seller_region row
    ∧ ∃ t, t ∈ flow_keyed transactions
           ∧ row = flow_group_of transactions
                     ((buyer_region t, seller_region t, marketplace t),
                      filter (λ r, (buyer_region r, seller_region r,
                                    marketplace r)
                                   = (buyer_region t, seller_region t,
                                      marketplace t))
                             (flow_keyed transactions)).
Proof.
  unfold flows. rewrite list_elem_of_filter, list_elem_of_fmap.
  split; intros [Hne Hrow]; (split; [done|]).
  - destruct Hrow as ([k rows] & -> & Hg).
    apply elem_of_groupby in Hg as [Hk ->].
    apply list_elem_of_fmap in Hk as (t & -> & Ht). by exists t.
  - destruct Hrow as (t & Ht & ->). eexists. split; [done|].
    apply elem_of_groupby. split; [|done].
    apply list_elem_of_fmap. by exists t.
Qed.




(** * The ring detector *)

Lemma filter_filter_same {A} (P Q : A → Prop) `{∀ x, Decision (P x)}
    `{∀ x, Decision (Q x)} (l : list A) :
  (∀ x, P x ↔ Q x) → filter P (filter Q l) = filter P l.
Proof.
  intros HPQ. induction l as [|x l IH]; [done|].
  rewrite (filter_cons Q), (filter_cons P).
  destruct (decide (Q x)) as [Hq|Hq], (decide (P x)) as [Hp|Hp].
  - by rewrite filter_cons_True, IH.
  - by rewrite filter_cons_False, IH.
  - by apply HPQ in Hp.
  - done.
Qed.

Lemma ring_edges_induced (transactions : list Txn) :
  ring_edges transactions
  = ring_edge_of
      <$> filter (λ t, buyer_id t ∈ ring_users transactions
                       ∧ seller_id t ∈ ring_users transactions) transactions.
Proof.
  unfold ring_edges, ring_txns. f_equal. apply filter_filter_same.
  intros t. unfold isin. rewrite andb_True, !bool_decide_spec. done.
Qed.

Lemma length_unique_size (l : list string) :
  length (unique l) = size (list_to_set l : gset string).
Proof.
  rewrite <- (size_list_to_set (C := gset string) (unique l))
    by apply NoDup_unique.
  f_equal. apply set_eq. intros x.
  by rewrite !elem_of_list_to_set, elem_of_unique.
Qed.

(** C6. Take the ids that appear as buyer or as seller in the rows
    labelled [wash_trade_ring], each as often as it appears.  The ring users
    are the 20 most frequent of them, all of them when there are fewer.
    The emitted edges are the first 200, in ledger order, of the
    transactions with both ends among the ring users, each edge running from
    the buyer to the seller of its transaction and flagged when that
    transaction is labelled [wash_trade_ring]; so every emitted edge has
    both ends among the ring users. *)
Theorem ring_edges_are_induced_prefix (transactions : list Txn) :
  let washes :=
    filter (λ t, anomaly_label t = "wash_trade_ring") transactions in
  let pool := (buyer_id <$> washes) ++ (seller_id <$> washes) in
  let appearances := λ u : string, length (filter (λ v, v = u) pool) in
  let ring := ring_users transactions in
  let induced :=
    filter (λ t, buyer_id t ∈ ring ∧ seller_id t ∈ ring) transactions in
  let edges := ring_export_edges (ring_export transactions) in
  length ring = Nat.min 20 (size (list_to_set pool : gset string))
  ∧ NoDup ring
  ∧ (∀ u, u ∈ ring →
          ∃ t, t ∈ transactions ∧ anomaly_label t = "wash_trade_ring"
               ∧ (buyer_id t = u ∨ seller_id t = u))
  ∧ (∀ u v, u ∈ ring → v ∈ pool → v ∉ ring →
            (appearances v ≤ appearances u)%nat)
  ∧ Forall2 (λ e t, ring_source e = buyer_id t
                    ∧ ring_target e = seller_id t
                    ∧ (is_wash_trade e = true
                       ↔ anomaly_label t = "wash_trade_ring"))
            edges (take 200 induced)
  ∧ edges = ring_edge_of <$> take 200 induced
  ∧ (∀ e, e ∈ edges → ring_source e ∈ ring ∧ ring_target e ∈ ring)
  ∧ (∀ e, e ∈ edges →
          ∃ t, t ∈ transactions ∧ e = ring_edge_of t
               ∧ buyer_id t ∈ ring ∧ seller_id t ∈ ring).
Proof.
  intros washes pool appearances ring induced edges.
  assert (Hedges : edges = ring_edge_of <$> take 200 induced).
  { unfold edges. cbn [ring_export ring_export_edges]. unfold head.
    by rewrite ring_edges_induced, fmap_take. }
  assert (Hends : ∀ e, e ∈ edges →
            ∃ t, t ∈ transactions ∧ e = ring_edge_of t
                 ∧ buyer_id t ∈ ring ∧ seller_id t ∈ ring).
  { rewrite Hedges. intros e (t & -> & Ht)%list_elem_of_fmap.
    apply subseteq_take in Ht. apply list_elem_of_filter in Ht as [[? ?] ?].
    by exists t. }
  split_and!.
  - unfold ring, ring_users. rewrite top_length.
    by rewrite length_unique_size.
  - apply top_NoDup.
  - intros u Hu. apply top_subseteq in Hu.
    apply elem_of_app in Hu as [Hu|Hu];
      apply list_elem_of_fmap in Hu as (t & -> & Ht);
      apply list_elem_of_filter in Ht as [Hl Ht]; exists t; auto.
  - apply (top_most_frequent 20 pool).
  - rewrite Hedges. apply Forall2_fmap_l, Forall_Forall2_diag, Forall_forall.
    intros t _. cbn [ring_edge_of ring_source ring_target is_wash_trade].
    split_and!; [done..|]. apply bool_decide_eq_true.
  - done.
  - intros e (t & _ & -> & Hb & Hs)%Hends. done.
  - done.
Qed.

Lemma ring_edges_are_induced_prefix_witness :
  ring_users Fixtures.ledger_ring = ["b"; "a"; "c"]
  ∧ length (ring_users Fixtures.ledger_ring)
    = Nat.min 20 (size (list_to_set ["a"; "b"; "b"; "c"] : gset string))
  ∧ (λ e, (ring_source e, ring_target e, is_wash_trade e))
      <$> ring_export_edges (ring_export Fixtures.ledger_ring)
    = [ ("a", "b", true); ("b", "c", true); ("c", "a", false) ].
Proof.
  split; [reflexivity|]. split; [|reflexivity].
  apply (ring_edges_are_induced_prefix Fixtures.ledger_ring).
Defined.

(** * The graph aggregator: nodes *)

Lemma count_true_is_anomaly (rows : list Txn) :
  count_true (is_anomaly <$> rows)
  = length (filter (λ t, anomaly_label t ≠ "normal") rows).
Proof.
  unfold count_true. induction rows as [|t rows IH]; [done|].
  rewrite fmap_cons. unfold is_anomaly at 1.
  destruct (decide (anomaly_label t ≠ "normal")) as [Hl|Hl].
  - rewrite bool_decide_eq_true_2 by done.
    rewrite !filter_cons_True by done. cbn [length]. by rewrite IH.
  - rewrite bool_decide_eq_false_2 by done.
    rewrite !filter_cons_False by done. exact IH.
Qed.

Lemma filter_and {A} (P Q : A → Prop) `{∀ x, Decision (P x)}
    `{∀ x, Decision (Q x)} (l : list A) :
  filter Q (filter P l) = filter (λ x, P x ∧ Q x) l.
Proof.
  induction l as [|x l IH]; [done|].
  rewrite (filter_cons P), (filter_cons (λ x, P x ∧ Q x)).
  destruct (decide (P x)) as [Hp|Hp].
  - rewrite filter_cons, IH.
    destruct (decide (Q x)); [by rewrite decide_True|].
    rewrite decide_False; [done|tauto].
  - rewrite decide_False; [done|tauto].
Qed.









(** * The dashboard sampler *)

Section NlargestFacts.
Context {R : Type} (col : R → Q).

Lemma col_desc_total (a b : R) :
  Qle_bool (col b) (col a) = true ∨ Qle_bool (col a) (col b) = true.
Proof.
  rewrite !Qle_bool_iff.
  destruct (Qlt_le_dec (col a) (col b)) as [Hlt|Hle]; [right|by left].
  by apply Qlt_le_weak.
Qed.

Lemma col_desc_trans (a b c : R) :
  Qle_bool (col b) (col a) = true → Qle_bool (col c) (col b) = true →
  Qle_bool (col c) (col a) = true.
Proof. rewrite !Qle_bool_iff. intros ? ?. by eapply Qle_trans. Qed.

Lemma StronglySorted_impl {A} (P Q : A → A → Prop) (l : list A) :
  (∀ x y, P x y → Q x y) → StronglySorted P l → StronglySorted Q l.
Proof.
  intros HPQ. induction 1 as [|x l Hl IH Hx]; constructor; [done|].
  eapply Forall_impl; [exact Hx|]. auto.
Qed.

(** On a numeric column [nlargest] returns the [n] largest rows in
    descending order, all the rows when there are at most [n]; rows with
    equal values keep their row order when there are more than [n]. *)
Lemma nlargest_spec `{Kernels} (n : nat) (rows : list R) :
  sorts_descending →
  ∃ kept,
    nlargest true n col rows = Ok kept
    ∧ length kept = Nat.min n (length rows)
    ∧ StronglySorted (λ a b, col b <= col a)%Q kept
    ∧ (∃ rest,
         kept ++ rest ≡ₚ rows
         ∧ (∀ a b, a ∈ kept → b ∈ rest → (col b <= col a)%Q)
         ∧ ((n < length rows)%nat →
            ∀ z, filter (λ r, col r == z)%Q (kept ++ rest)
                 = filter (λ r, col r == z)%Q rows))
    ∧ ((length rows ≤ n)%nat → kept ≡ₚ rows).
Proof.
  intros Hsort. unfold nlargest, head.
  destruct (decide (length rows ≤ n)%nat) as [Hle|Hgt].
  - destruct (Hsort R col rows) as [Hperm Hsorted].
    assert (Hlen : length (sort_values_desc col rows) = length rows)
      by (by rewrite Hperm).
    eexists. split; [done|]. rewrite take_ge by lia.
    split_and!; [lia|done| |done].
    exists []. rewrite app_nil_r. split_and!; [done| |lia].
    by intros a b _ ?%elem_of_nil.
  - set (leb := λ a b, Qle_bool (col b) (col a)).
    pose proof (sort_by_sorted leb col_desc_total col_desc_trans rows) as Hs.
    eexists. split; [done|]. split_and!.
    + by rewrite length_take, length_sort_by.
    + apply (StronglySorted_impl (λ a b, leb a b = true)).
      * intros x y. unfold leb. by rewrite Qle_bool_iff.
      * by apply take_sorted.
    + exists (drop n (sort_by leb rows)). rewrite take_drop. split_and!.
      * apply sort_by_Permutation.
      * intros a b Ha Hb. apply Qle_bool_iff.
        by apply (take_sorted_le leb n (sort_by leb rows)).
      * intros _ z. apply filter_sort_by. intros x y Hx Hy. unfold leb.
        apply Qle_bool_iff. rewrite Hx, Hy. apply Qle_refl.
    + lia.
Qed.
End NlargestFacts.

Lemma anomalies_by_label (transactions : list Txn) :
  anomalies transactions
  = filter (λ t, anomaly_label t ≠ "normal") transactions.
Proof.
  unfold anomalies. induction transactions as [|t rows IH]; [done|].
  rewrite !filter_cons, IH. unfold is_anomaly.
  destruct (decide (anomaly_label t ≠ "normal")) as [Hl|Hl].
  - by rewrite decide_True by (by apply bool_decide_spec).
  - by rewrite decide_False by (by rewrite bool_decide_spec).
Qed.

Lemma kernels_sort : @sorts_descending Fixtures.kernels.
Proof.
  intros R col rows. cbn. split; [apply sort_by_Permutation|].
  apply (StronglySorted_impl (λ a b, Qle_bool (col b) (col a) = true)).
  - intros x y. by rewrite Qle_bool_iff.
  - apply sort_by_sorted; [apply col_desc_total|apply col_desc_trans].
Qed.

Lemma reversing_sorts : @sorts_descending Fixtures.reversing.
Proof.
  intros R col rows. cbn. split.
  - by rewrite sort_by_Permutation, reverse_Permutation.
  - apply (StronglySorted_impl (λ a b, Qle_bool (col b) (col a) = true)).
    + intros x y. by rewrite Qle_bool_iff.
    + apply sort_by_sorted; [apply col_desc_total|apply col_desc_trans].
Qed.

(** C7 (as amended). For a ledger with at least one transaction the
    top-anomalies list holds the 100 anomalous transactions of largest
    [|price_z|], all of them when there are at most 100, in descending order
    of [|price_z|].  Rows of equal [|price_z|] are in ledger order when the
    ledger has more than 100 anomalous transactions; with at most 100 the
    order among them is the one the default sort leaves.  The export holds
    the records of these rows, in that order.  For a ledger without a
    transaction the selection raises a [TypeError]. *)
Theorem top_anomalies_largest_sorted_stable `{Kernels}
    (transactions : list Txn) :
  let all := filter (λ t, anomaly_label t ≠ "normal") transactions in
  let deviation := λ t : Txn, Qabs (price_z t) in
  (transactions = [] →
   top_anomalies transactions = Raise TypeError
   ∧ anomalies_export transactions = Raise TypeError)
  ∧ (transactions ≠ [] → sorts_descending →
     ∃ kept,
       top_anomalies transactions = Ok kept
       ∧ length kept = Nat.min 100 (length all)
       ∧ StronglySorted (λ a b, deviation b <= deviation a)%Q kept
       ∧ (∃ rest,
            kept ++ rest ≡ₚ all
            ∧ (∀ a b, a ∈ kept → b ∈ rest → (deviation b <= deviation a)%Q)
            ∧ ((100 < length all)%nat →
               ∀ z, filter (λ t, deviation t == z)%Q (kept ++ rest)
                    = filter (λ t, deviation t == z)%Q all))
       ∧ ((length all ≤ 100)%nat → kept ≡ₚ all)
       ∧ ∃ records,
           anomalies_export transactions = Ok records
           ∧ Forall2 (λ r t,
                        ar_transaction_id r = transaction_id t
                        ∧ ar_timestamp r = timestamp t
                        ∧ ar_category r = category t
                        ∧ ar_price r = price t
                        ∧ ar_price_z r = price_z t
                        ∧ ar_anomaly_label r = anomaly_label t
                        ∧ ar_anomaly_notes r = anomaly_notes t)
                     records kept).
Proof.
  intros all deviation. split.
  - by intros ->.
  - intros Hne Hsort.
    destruct (nlargest_spec abs_z 100 all Hsort)
      as (kept & E & Hlen & Hsorted & Hrest & Hall).
    assert (Etop : top_anomalies transactions = Ok kept).
    { unfold top_anomalies. rewrite bool_decide_eq_true_2 by done.
      by rewrite anomalies_by_label. }
    exists kept. split_and!; [done..|].
    unfold anomalies_export. rewrite Etop. cbn [bind].
    eexists. split; [done|].
    apply Forall2_fmap_l, Forall_Forall2_diag, Forall_forall. by intros t _.
Qed.

Lemma top_anomalies_largest_sorted_stable_witness :
  ∃ kept, top_anomalies Fixtures.ledger_ring = Ok kept
          ∧ length kept = 3%nat
          ∧ transaction_id <$> kept = ["t2"; "t3"; "t1"].
Proof.
  destruct (top_anomalies_largest_sorted_stable Fixtures.ledger_ring)
    as [_ Hrows].
  destruct Hrows as (kept & E & Hlen & _); [done|apply kernels_sort|].
  exists kept. split_and!; [done|by rewrite Hlen|].
  vm_compute in E. by injection E as <-.
Defined.

(** C7, as stated, fails in two ways.  Read from a header-only file the
    ledger has no anomaly and the list should be empty, but the selection
    raises.  And with at most 100 anomalies a default sort that does sort
    may still leave rows of equal [|price_z|] out of ledger order: here the
    three rows of deviation 3 come out as [t3], [t2], [t1]. *)
Lemma top_anomalies_raises_or_reorders_ties :
  top_anomalies [] = Raise TypeError
  ∧ @sorts_descending Fixtures.reversing
  ∧ ∃ kept,
      top_anomalies (H := Fixtures.reversing) Tables.ledger_ties
      = Ok kept
      ∧ transaction_id <$> filter (λ t, Qabs (price_z t) == 3)%Q kept
        = ["t3"; "t2"; "t1"]
      ∧ transaction_id
          <$> filter (λ t, Qabs (price_z t) == 3)%Q
                     (filter (λ t, anomaly_label t ≠ "normal")
                             Tables.ledger_ties)
        = ["t1"; "t2"; "t3"].
Proof.
  split; [reflexivity|]. split; [apply reversing_sorts|].
  eexists. split; [reflexivity|]. split; reflexivity.
Qed.

(** * The stats summary and the categories export *)

Lemma stats_categories_lookup `{Kernels}
    (transactions : list Txn) (cat : string) :
  stats_categories (stats_export transactions) !! cat
  = if decide (cat ∈ category <$> transactions)
    then Some (category_stats transactions cat) else None.
Proof.
  cbn [stats_export stats_categories].
  set (cats := unique (category <$> transactions)).
  assert (Hfst : ((λ c, (c, category_stats transactions c)) <$> cats).*1
                 = cats).
  { rewrite <- list_fmap_compose. apply list_fmap_id. }
  case_decide as Hcat.
  - apply elem_of_list_to_map_1.
    + rewrite Hfst. apply NoDup_unique.
    + apply list_elem_of_fmap. exists cat. split; [done|].
      by apply elem_of_unique.
  - apply not_elem_of_list_to_map_1. rewrite Hfst. unfold cats.
    by rewrite elem_of_unique.
Qed.


(** * Rates and intensities of the groups that have rows *)

Lemma py_min_unit_id (v : fval) : in_unit v → in_unit (py_min v 1).
Proof.
  destruct v as [q| |]; [|done..]. intros [Hq _]. by apply py_min_in_unit.
Qed.

Lemma edge_intensity_in_unit `{Kernels} (transactions : list Txn) (e : Edge) :
  e ∈ edge_data transactions → in_unit (edge_intensity e).
Proof.
  intros (rows & Hne & _ & ->)%elem_of_edge_data.
  cbn [edge_of edge_intensity edge_group_of eg_price_z snd].
  destruct (mean_nonneg (abs_z <$> rows)) as (q & -> & Hq).
  - by intros ?%fmap_nil_inv.
  - apply abs_z_nonneg.
  - cbn [fdiv_const]. apply py_min_in_unit.
    apply Qle_shift_div_l; [reflexivity|]. by rewrite Qmult_0_l.
Qed.

Lemma particle_intensity_in_unit (cat_idx : nat) (cat : string) (txn : Txn) :
  in_unit (particle_intensity (particle_of cat_idx cat txn)).
Proof.
  cbn [particle_of particle_intensity]. apply py_min_in_unit.
  apply Qle_shift_div_l; [reflexivity|]. rewrite Qmult_0_l.
  apply Qabs_nonneg.
Qed.

Lemma elem_of_particles_of (transactions rows : list Txn) (p : Particle) :
  p ∈ particles_of transactions rows →
  ∃ cat_idx cat txn, txn ∈ rows ∧ p = particle_of cat_idx cat txn.
Proof.
  unfold particles_of. intros (ps & Hp & Hps)%list_elem_of_join.
  apply elem_of_lookup_imap in Hps as (i & cat & -> & _).
  apply list_elem_of_fmap in Hp as (txn & -> & Htxn).
  apply list_elem_of_filter in Htxn as [_ Htxn]. eauto.
Qed.

Lemma flow_of_rates (transactions : list Txn)
    (row : FlowGroup) (f : Flow) :
  flow_of transactions row = Ok f →
  flow_anomaly_rate f = np_div (fg_is_anomaly row) (fg_transaction_id row)
  ∧ flow_intensity f
    = py_min (np_div (fg_is_anomaly row) (fg_transaction_id row)) 1.
Proof.
  unfold flow_of.
  destruct (region_lookup (fg_buyer_region row)); cbn [bind]; [|done].
  destruct (region_lookup (fg_seller_region row)); cbn [bind]; [|done].
  by intros [= <-].
Qed.

Lemma flow_rows_elem (transactions : list Txn)
    (rows : list FlowGroup) (fd : list Flow) (f : Flow) :
  flow_rows transactions rows = Ok fd → f ∈ fd →
  ∃ row, row ∈ rows ∧ flow_of transactions row = Ok f.
Proof.
  revert fd. induction rows as [|row rows IH]; intros fd; cbn [flow_rows].
  - intros [= <-] ?%elem_of_nil. done.
  - destruct (flow_of transactions row) as [f0|] eqn:E0; cbn [bind]; [|done].
    destruct (flow_rows transactions rows) as [fs|]; cbn [bind]; [|done].
    intros [= <-] [->|Hf]%elem_of_cons.
    + exists row. split; [set_solver|done].
    + destruct (IH fs eq_refl Hf) as (r & Hr & Er). exists r.
      split; [set_solver|done].
Qed.

Lemma flows_counts `{Kernels} (transactions : list Txn) (row : FlowGroup) :
  row ∈ flows transactions →
  (fg_is_anomaly row ≤ fg_transaction_id row)%nat
  ∧ (0 < fg_transaction_id row)%nat.
Proof.
  unfold flows. intros [_ Hrow]%list_elem_of_filter.
  apply list_elem_of_fmap in Hrow as ([k rows] & -> & Hg).
  apply groupby_nonempty in Hg. cbn. split.
  - etrans; [apply count_true_le|]. by rewrite length_fmap.
  - destruct rows; [done|simpl; lia].
Qed.

(** Away from the marketplaces without transactions, every anomaly rate
    and every intensity the script emits is in the unit interval. *)
Theorem emitted_rates_in_unit `{Kernels} (transactions : list Txn)
    (choose : nat → list Txn → list Txn) :
  (∀ e, e ∈ edge_data transactions → in_unit (edge_intensity e))
  ∧ (∀ ps p, particle_data transactions choose = Ok ps → p ∈ ps →
             in_unit (particle_intensity p))
  ∧ (∀ fd f, flow_data transactions = Ok fd → f ∈ fd →
             in_unit (flow_anomaly_rate f) ∧ in_unit (flow_intensity f))
  ∧ (∀ name, market_rows transactions name ≠ [] →
             in_unit (stats_anomaly_rate (market_stats transactions name)))
  ∧ (∀ mb, mb ∈ stats_marketplaces (stats_export transactions) →
           in_unit (mb_anomaly_rate mb))
  ∧ (∀ cat cs, categories_export transactions !! cat = Some cs →
               in_unit (cat_anomaly_rate cs)).
Proof.
  split_and!.
  - apply edge_intensity_in_unit.
  - intros ps p. unfold particle_data.
    destruct (normal_sample transactions choose) as [drawn|]; cbn [bind];
      [|done].
    intros [= <-] (i & c & t & _ & ->)%elem_of_particles_of.
    apply particle_intensity_in_unit.
  - intros fd f Hfd Hf. unfold flow_data in Hfd.
    destruct (flow_rows_elem _ _ _ _ Hfd Hf) as (row & Hrow & Erow).
    apply flow_of_rates in Erow as [-> ->].
    apply flows_counts in Hrow as [Hle Hpos].
    pose proof (np_div_in_unit _ _ Hle Hpos) as Hunit.
    split; [done|]. by apply py_min_unit_id.
  - apply market_stats_rate_in_unit.
  - cbn [stats_export stats_marketplaces].
    intros mb (m & -> & Hm)%list_elem_of_fmap. cbn [mb_anomaly_rate].
    apply elem_of_unique, list_elem_of_fmap in Hm as (t & -> & Ht).
    apply mean_bool_in_unit. intros E%fmap_nil_inv.
    assert (Hin : t ∈ market_rows transactions (marketplace t))
      by (by apply list_elem_of_filter).
    rewrite E in Hin. by apply elem_of_nil in Hin.
  - intros cat cs. unfold categories_export.
    rewrite stats_categories_lookup. case_decide as Hcat; [|done].
    intros [= <-]. cbn [category_stats cat_anomaly_rate].
    apply list_elem_of_fmap in Hcat as (t & -> & Ht).
    apply mean_bool_in_unit. intros E%fmap_nil_inv.
    assert (Hin : t ∈ with_category transactions (category t))
      by (by apply list_elem_of_filter).
    rewrite E in Hin. by apply elem_of_nil in Hin.
Qed.

(** * Counting rows over groups *)

Lemma filter_ext_in {R} (P Q : R → Prop) `{∀ x, Decision (P x)}
    `{∀ x, Decision (Q x)} (l : list R) :
  (∀ x, x ∈ l → P x ↔ Q x) → filter P l = filter Q l.
Proof.
  induction l as [|x l IH]; intros HPQ; [done|].
  rewrite !filter_cons, IH by (intros y Hy; apply HPQ; set_solver).
  destruct (decide (P x)) as [Hp|Hp], (decide (Q x)) as [Hq|Hq]; try done.
  - destruct Hq. apply HPQ; [set_solver|done].
  - destruct Hp. apply HPQ; [set_solver|done].
Qed.

Lemma filter_none {R} (P : R → Prop) `{∀ x, Decision (P x)} (l : list R) :
  (∀ x, x ∈ l → ¬ P x) → filter P l = [].
Proof.
  induction l as [|x l IH]; intros HP; [done|].
  rewrite filter_cons_False by (apply HP; set_solver).
  apply IH. intros y Hy. apply HP. set_solver.
Qed.

Lemma length_filter_split {R} (A B C : R → Prop) `{∀ x, Decision (A x)}
    `{∀ x, Decision (B x)} `{∀ x, Decision (C x)} (l : list R) :
  (∀ x, A x ↔ B x ∨ C x) → (∀ x, B x → C x → False) →
  length (filter A l) = (length (filter B l) + length (filter C l))%nat.
Proof.
  intros HA Hdis. induction l as [|x l IH]; [done|].
  rewrite !filter_cons.
  destruct (decide (B x)) as [Hb|Hb], (decide (C x)) as [Hc|Hc].
  - destruct (Hdis x Hb Hc).
  - rewrite decide_True by (apply HA; tauto). cbn [length]. lia.
  - rewrite decide_True by (apply HA; tauto). cbn [length]. lia.
  - rewrite decide_False by (rewrite HA; tauto). done.
Qed.

Section CountFacts.
Context {K R : Type} `{EqDecision K} (key : R → K).

Lemma filter_fmap_comm {A B} (f : A → B) (P : B → Prop)
    `{∀ x, Decision (P x)} (l : list A) :
  filter P (f <$> l) = f <$> filter (λ a, P (f a)) l.
Proof.
  induction l as [|a l IH]; [done|].
  rewrite fmap_cons, !filter_cons, IH. by case_decide.
Qed.

Lemma sum_list_with_fmap {A B} (f : B → nat) (g : A → B) (l : list A) :
  sum_list_with f (g <$> l) = sum_list_with (λ a, f (g a)) l.
Proof. induction l as [|a l IH]; [done|]. cbn. by rewrite IH. Qed.

(** Over a duplicate-free list of keys, the sizes of the groups of the
    keys satisfying [P] add up to the number of rows with such a key. *)
Lemma sum_group_sizes (P : K → Prop) `{∀ k, Decision (P k)}
    (ks : list K) (l : list R) :
  NoDup ks →
  sum_list_with (λ k, length (filter (λ r, key r = k) l)) (filter P ks)
  = length (filter (λ r, key r ∈ ks ∧ P (key r)) l).
Proof.
  induction 1 as [|k ks Hk Hnd IH].
  - rewrite filter_nil. cbn [sum_list_with].
    rewrite filter_none; [done|]. intros x _ [Hx _]. by apply elem_of_nil in Hx.
  - rewrite filter_cons. destruct (decide (P k)) as [Hp|Hp].
    + cbn [sum_list_with]. rewrite IH.
      symmetry. apply length_filter_split.
      * intros x. rewrite elem_of_cons. naive_solver.
      * intros x -> [Hin _]. done.
    + rewrite IH. f_equal. apply filter_ext_in. intros x _.
      rewrite elem_of_cons. naive_solver.
Qed.

(** The groups of [groupby] whose key satisfies [P] hold, together, each
    row with such a key exactly once. *)
Lemma groupby_sizes (leb : K → K → bool) (P : K → Prop)
    `{∀ k, Decision (P k)} (l : list R) :
  sum_list_with (λ g, length g.2) (filter (λ g, P g.1) (groupby leb key l))
  = length (filter (λ r, P (key r)) l).
Proof.
  unfold groupby. rewrite filter_fmap_comm, sum_list_with_fmap. cbn [fst snd].
  rewrite sum_group_sizes.
  - f_equal. apply filter_ext_in. intros r Hr.
    rewrite elem_of_sort_by, elem_of_unique, list_elem_of_fmap. naive_solver.
  - rewrite sort_by_Permutation. apply NoDup_unique.
Qed.

Lemma groupby_sizes_all (leb : K → K → bool) (l : list R) :
  sum_list_with (λ g, length g.2) (groupby leb key l) = length l.
Proof.
  rewrite <- (filter_all (λ g, True) (groupby leb key l)) by done.
  etrans; [exact (groupby_sizes leb (λ _, True) l)|].
  f_equal. by apply filter_all.
Qed.

Lemma sum_list_with_ext {A} (f g : A → nat) (l : list A) :
  (∀ a, a ∈ l → f a = g a) → sum_list_with f l = sum_list_with g l.
Proof.
  induction l as [|a l IH]; intros Hfg; [done|]. cbn.
  rewrite Hfg, IH; [done| |set_solver]. intros b Hb. apply Hfg. set_solver.
Qed.

(** The rows satisfying [Q] are spread over the groups without loss. *)
Lemma groupby_sub_sizes (leb : K → K → bool) (Q : R → Prop)
    `{∀ r, Decision (Q r)} (l : list R) :
  sum_list_with (λ g, length (filter Q g.2)) (groupby leb key l)
  = length (filter Q l).
Proof.
  unfold groupby. rewrite sum_list_with_fmap. cbn [snd].
  set (ks := sort_by leb (unique (key <$> l))).
  rewrite (sum_list_with_ext _
             (λ k, length (filter (λ r, key r = k) (filter Q l)))).
  - rewrite <- (filter_all (λ _, True) ks) by done.
    rewrite (sum_group_sizes (λ _, True)).
    + f_equal. apply filter_all. intros r [_ Hr]%list_elem_of_filter.
      split; [|done]. unfold ks.
      rewrite elem_of_sort_by, elem_of_unique, list_elem_of_fmap. eauto.
    + unfold ks. rewrite sort_by_Permutation. apply NoDup_unique.
  - intros k _. f_equal. rewrite !filter_and.
    apply filter_ext_in. intros r _. tauto.
Qed.

Lemma groupby_keys_NoDup (leb : K → K → bool) (l : list R) :
  NoDup (groupby leb key l).*1.
Proof.
  assert (E : (groupby leb key l).*1 = sort_by leb (unique (key <$> l))).
  { unfold groupby. rewrite <- list_fmap_compose. apply list_fmap_id. }
  rewrite E, sort_by_Permutation. apply NoDup_unique.
Qed.
End CountFacts.

(** * The network graph as a whole *)

Lemma node_ids `{Kernels} (transactions : list Txn) (users : list User) :
  node_id <$> node_data transactions users = active_users transactions.
Proof. unfold node_data. rewrite <- list_fmap_compose. apply list_fmap_id. Qed.

(** X1. A user missing from the users table, or present with an empty
    cell, gets the defaults [Unknown] and [false]; when several rows carry
    the id, the first one decides. *)
Theorem node_region_kyc_defaults `{Kernels}
    (transactions : list Txn) (users : list User)
    (n : Node) :
  n ∈ node_data transactions users →
  ((∀ r, r ∈ users → user_id r ≠ node_id n) →
   node_region n = "Unknown" ∧ node_kyc n = false)
  ∧ (∀ before r after,
       users = before ++ r :: after → user_id r = node_id n →
       (∀ r', r' ∈ before → user_id r' ≠ node_id n) →
       node_region n = default "Unknown" (region r)
       ∧ node_kyc n = default false (kyc_verified r)).
Proof.
  intros (u & -> & _)%list_elem_of_fmap. cbn [node_of node_id node_region node_kyc].
  unfold user_info. split.
  - intros Hnone. rewrite filter_none; [done|]. intros r Hr. by apply Hnone.
  - intros before r after -> Hr Hbefore.
    rewrite filter_app, filter_cons_True by done.
    rewrite filter_none by done. cbn [app].
    by destruct (region r), (kyc_verified r).
Qed.

Lemma node_region_kyc_defaults_witness :
  let n := node_of Fixtures.ledger_ring Tables.users_partial "a" in
  (node_region n = "EU" ∧ node_kyc n = false)
  ∧ (node_region (node_of Fixtures.ledger_ring Tables.users_partial "c")
     = "Unknown").
Proof.
  assert (Hin : ∀ u, u ∈ ["a"; "b"; "c"] →
                     node_of Fixtures.ledger_ring Tables.users_partial u
                     ∈ node_data Fixtures.ledger_ring Tables.users_partial).
  { intros u Hu. apply list_elem_of_fmap. exists u. split; [done|].
    unfold active_users. apply elem_of_elements, elem_of_union. left.
    apply elem_of_list_to_set.
    assert (E : top_buyers Fixtures.ledger_ring = ["a"; "b"; "c"; "d"])
      by reflexivity.
    rewrite E. set_solver. }
  split.
  - destruct (node_region_kyc_defaults Fixtures.ledger_ring
                Tables.users_partial _ (Hin "a" ltac:(set_solver)))
      as [_ Hfirst].
    apply (Hfirst []
             {| user_id := "a"; region := Some "EU"; kyc_verified := None |}
             (tail Tables.users_partial)); [done|done|].
    by intros r' ?%elem_of_nil.
  - destruct (node_region_kyc_defaults Fixtures.ledger_ring
                Tables.users_partial _ (Hin "c" ltac:(set_solver)))
      as [Hnone _].
    apply Hnone. intros r Hr. unfold Tables.users_partial in Hr.
    repeat (apply elem_of_cons in Hr as [->|Hr]; [done|]).
    by apply elem_of_nil in Hr.
Defined.

(** X2. The graph has at most 160 nodes, one per active user, and the
    node count of the metadata is that number. *)
Theorem network_has_at_most_160_nodes `{Kernels} (transactions : list Txn)
    (users : list User) :
  (length (nodes (network_export transactions users)) ≤ 160)%nat
  ∧ total_nodes (network_export transactions users)
    = length (active_users transactions)
  ∧ NoDup (node_id <$> nodes (network_export transactions users)).
Proof.
  cbn [network_export nodes total_nodes].
  assert (Hlen : (length (active_users transactions) ≤ 160)%nat).
  { unfold active_users.
    change (length (elements ?X)) with (size X).
    rewrite size_union_alt.
    pose proof (subseteq_size
                  (list_to_set (top_sellers transactions)
                     ∖ list_to_set (top_buyers transactions))
                  (list_to_set (top_sellers transactions) : gset string)
                  ltac:(set_solver)) as Hsub.
    rewrite !size_list_to_set in * by apply top_NoDup.
    unfold top_buyers, top_sellers in *. rewrite !top_length in *. lia. }
  split_and!.
  - by rewrite <- (length_fmap node_id), node_ids.
  - by rewrite <- (node_ids transactions users), length_fmap.
  - rewrite node_ids. unfold active_users. apply NoDup_elements.
Qed.

Lemma elem_of_network_txns (transactions : list Txn) (t : Txn) :
  t ∈ network_txns transactions
  ↔ t ∈ transactions ∧ buyer_id t ∈ active_users transactions
    ∧ seller_id t ∈ active_users transactions.
Proof.
  unfold network_txns, isin.
  rewrite list_elem_of_filter, andb_True, !bool_decide_spec. tauto.
Qed.

(** X3. Every edge joins two emitted nodes, stands for at least one
    transaction of its buyer-seller pair, counts no more anomalies than
    transactions, has a non-negative number as mean deviation, and no two
    edges share an ordered buyer-seller pair. *)
Theorem edges_join_emitted_nodes `{Kernels} (transactions : list Txn)
    (users : list User) :
  (∀ e, e ∈ edge_data transactions →
        edge_source e ∈ node_id <$> node_data transactions users
        ∧ edge_target e ∈ node_id <$> node_data transactions users
        ∧ (1 ≤ edge_tx_count e)%nat
        ∧ (edge_anomaly_count e ≤ edge_tx_count e)%nat
        ∧ ∃ q, edge_avg_price_z e = Num q ∧ (0 <= q)%Q)
  ∧ NoDup ((λ e, (edge_source e, edge_target e)) <$> edge_data transactions).
Proof.
  split.
  - intros e (rows & Hne & Hrows & ->)%elem_of_edge_data.
    cbn -[mean]. rewrite node_ids.
    destruct rows as [|t rows']; [done|].
    assert (Ht : t ∈ filter (λ t, (buyer_id t, seller_id t)
                                  = (edge_source e, edge_target e))
                            (network_txns transactions))
      by (rewrite <- Hrows; set_solver).
    apply list_elem_of_filter in Ht as [[= Hb Hs] Ht].
    apply elem_of_network_txns in Ht as (_ & Hba & Hsa).
    split_and!.
    + by rewrite <- Hb.
    + by rewrite <- Hs.
    + cbn [length]. lia.
    + etrans; [apply count_true_le|]. by rewrite length_fmap.
    + apply mean_nonneg; [done|apply abs_z_nonneg].
  - unfold edge_data, edge_groups. rewrite <- !list_fmap_compose.
    eapply (NoDup_fmap_1 id). rewrite list_fmap_id.
    erewrite list_fmap_ext; [apply (groupby_keys_NoDup _ pair_leb)|].
    by intros i [[b s] rows] _.
Qed.

Lemma edges_join_emitted_nodes_witness :
  let e := edge_of Fixtures.ledger_ring
      (edge_group_of Fixtures.ledger_ring
         (("a", "b"), take 1 Fixtures.ledger_ring)) in
  edge_source e ∈ node_id <$> node_data Fixtures.ledger_ring []
  ∧ edge_target e ∈ node_id <$> node_data Fixtures.ledger_ring []
  ∧ (1 ≤ edge_tx_count e)%nat
  ∧ (edge_anomaly_count e ≤ edge_tx_count e)%nat
  ∧ ∃ q, edge_avg_price_z e = Num q ∧ (0 <= q)%Q.
Proof.
  apply (edges_join_emitted_nodes Fixtures.ledger_ring []).
  vm_compute. apply list_elem_of_here.
Defined.

(** X4. The edges lose no transaction of the network and count none
    twice: their transaction counts add up to the number of transactions
    between active users, and their anomaly counts to the number of
    anomalous ones among these. *)
Theorem edges_partition_network_txns `{Kernels} (transactions : list Txn) :
  sum_list_with edge_tx_count (edge_data transactions)
  = length (network_txns transactions)
  ∧ sum_list_with edge_anomaly_count (edge_data transactions)
    = length (filter (λ t, anomaly_label t ≠ "normal")
                     (network_txns transactions)).
Proof.
  unfold edge_data, edge_groups. rewrite !sum_list_with_fmap. cbn. split.
  - apply groupby_sizes_all.
  - erewrite sum_list_with_ext;
      [apply (groupby_sub_sizes _ pair_leb
                (λ t, anomaly_label t ≠ "normal"))|].
    intros g _. cbn [snd]. apply count_true_is_anomaly.
Qed.

(** * The anomaly timeline *)

Lemma elem_of_anomalies (transactions : list Txn) (t : Txn) :
  t ∈ anomalies transactions ↔ t ∈ transactions ∧ anomaly_label t ≠ "normal".
Proof.
  unfold anomalies, is_anomaly.
  rewrite list_elem_of_filter, bool_decide_spec. tauto.
Qed.

Lemma groupby_keys {K R} `{EqDecision K} (leb : K → K → bool) (key : R → K)
    (l : list R) :
  (groupby leb key l).*1 = sort_by leb (unique (key <$> l)).
Proof. unfold groupby. rewrite <- list_fmap_compose. apply list_fmap_id. Qed.

Lemma sorted_NoDup_lt (ns : list nat) :
  StronglySorted (λ a b, Nat.leb a b = true) ns → NoDup ns →
  StronglySorted lt ns.
Proof.
  induction 1 as [|n ns Hs IH Hn]; intros Hnd; constructor.
  - apply IH. by apply NoDup_cons in Hnd as [_ ?].
  - apply NoDup_cons in Hnd as [Hnot _].
    rewrite Forall_forall in *. intros m Hm.
    specialize (Hn m Hm). apply Nat.leb_le in Hn.
    assert (n ≠ m) by (intros ->; done). lia.
Qed.

Lemma temporal_types `{Kernels} (transactions : list Txn) :
  temporal_type <$> temporal_data transactions
  = unique (anomaly_label <$> anomalies transactions).
Proof.
  unfold temporal_data. rewrite <- list_fmap_compose. apply list_fmap_id.
Qed.

(** X5. The timeline has one entry per anomaly label present in the
    ledger and none for [normal]; each entry counts at least one
    transaction, and its mean price and mean deviation are numbers, the
    second non-negative. *)
Theorem timeline_types_are_the_anomaly_labels `{Kernels}
    (transactions : list Txn) :
  NoDup (temporal_type <$> temporal_data transactions)
  ∧ (∀ label, label ∈ temporal_type <$> temporal_data transactions
              ↔ label ≠ "normal"
                ∧ ∃ t, t ∈ transactions ∧ anomaly_label t = label)
  ∧ (∀ entry, entry ∈ temporal_data transactions →
              (1 ≤ temporal_total_count entry)%nat
              ∧ (∃ p, temporal_avg_price entry = Num p)
              ∧ ∃ q, temporal_avg_z_score entry = Num q ∧ (0 <= q)%Q).
Proof.
  split_and!.
  - rewrite temporal_types. apply NoDup_unique.
  - intros label. rewrite temporal_types, elem_of_unique, list_elem_of_fmap.
    setoid_rewrite elem_of_anomalies. naive_solver.
  - intros entry (label & -> & Hl)%list_elem_of_fmap.
    apply elem_of_unique, list_elem_of_fmap in Hl as (t & -> & Ht).
    cbn -[mean].
    assert (Hin : t ∈ filter (λ t', anomaly_label t' = anomaly_label t)
                             (anomalies transactions))
      by (by apply list_elem_of_filter).
    destruct (filter (λ t', anomaly_label t' = anomaly_label t)
                     (anomalies transactions)) as [|t0 rows] eqn:E;
      [by apply elem_of_nil in Hin|].
    split_and!.
    + cbn [length]. lia.
    + by eexists.
    + apply mean_nonneg; [done|apply abs_z_nonneg].
Qed.

Lemma timeline_types_are_the_anomaly_labels_witness :
  "price_spike" ∈ temporal_type <$> temporal_data Fixtures.ledger_ring.
Proof.
  apply (timeline_types_are_the_anomaly_labels Fixtures.ledger_ring).
  split; [discriminate|].
  exists (Fixtures.row "t3" "c" "a" "keys" 9 (5 # 2) "Arcade" "OCE" "EU"
                       "price_spike").
  split; [|done]. unfold Fixtures.ledger_ring.
  do 2 apply list_elem_of_further. apply list_elem_of_here.
Defined.

(** X6. Inside an entry the daily counts add up to the total of the
    type, and over the timeline the totals add up to the number of anomalous
    transactions. *)
Theorem timeline_counts_add_up `{Kernels} (transactions : list Txn) :
  (∀ entry, entry ∈ temporal_data transactions →
            sum_list_with daily_count (temporal_daily_counts entry)
            = temporal_total_count entry)
  ∧ sum_list_with temporal_total_count (temporal_data transactions)
    = length (anomalies transactions).
Proof.
  split.
  - intros entry (label & -> & _)%list_elem_of_fmap.
    cbn [temporal_of temporal_daily_counts temporal_total_count].
    rewrite sum_list_with_fmap. cbn. apply groupby_sizes_all.
  - unfold temporal_data. rewrite sum_list_with_fmap. cbn.
    set (ks := unique (anomaly_label <$> anomalies transactions)).
    rewrite <- (filter_all (λ _, True) ks) by done.
    rewrite (sum_group_sizes anomaly_label (λ _, True)) by apply NoDup_unique.
    f_equal. apply filter_all. intros t Ht. split; [|done].
    apply elem_of_unique, list_elem_of_fmap. eauto.
Qed.

Lemma timeline_counts_add_up_witness :
  sum_list_with daily_count
    (temporal_daily_counts (temporal_of Fixtures.ledger_ring "wash_trade_ring"))
  = temporal_total_count (temporal_of Fixtures.ledger_ring "wash_trade_ring").
Proof.
  apply (timeline_counts_add_up Fixtures.ledger_ring).
  vm_compute. apply list_elem_of_here.
Defined.

(** X7. The daily buckets of an entry come in strictly ascending order
    of the day of the month, one bucket per day on which the type occurs,
    each with at least one transaction. *)
Theorem timeline_days_ascend `{Kernels}
    (transactions : list Txn) (entry : Temporal) :
  entry ∈ temporal_data transactions →
  StronglySorted lt (daily_day <$> temporal_daily_counts entry)
  ∧ (∀ d, d ∈ daily_day <$> temporal_daily_counts entry
          ↔ ∃ t, t ∈ anomalies transactions
                 ∧ anomaly_label t = temporal_type entry
                 ∧ ts_day (timestamp t) = d)
  ∧ ∀ bucket, bucket ∈ temporal_daily_counts entry →
              (1 ≤ daily_count bucket)%nat.
Proof.
  intros (label & -> & _)%list_elem_of_fmap.
  cbn [temporal_of temporal_daily_counts temporal_type].
  set (rows := filter (λ t, anomaly_label t = label) (anomalies transactions)).
  assert (Hdays : daily_day <$> (daily_of transactions
                    <$> groupby Nat.leb (λ t, ts_day (timestamp t)) rows)
                  = sort_by Nat.leb (unique ((λ t, ts_day (timestamp t))
                                               <$> rows))).
  { rewrite <- (groupby_keys Nat.leb (λ t, ts_day (timestamp t)) rows).
    by rewrite <- list_fmap_compose. }
  rewrite Hdays. split_and!.
  - apply sorted_NoDup_lt.
    + apply sort_by_sorted.
      * intros x y. rewrite !Nat.leb_le. lia.
      * intros x y z. rewrite !Nat.leb_le. lia.
    + rewrite sort_by_Permutation. apply NoDup_unique.
  - intros d. rewrite elem_of_sort_by, elem_of_unique, list_elem_of_fmap.
    unfold rows. split.
    + intros (t & -> & [Hl Ht]%list_elem_of_filter). by exists t.
    + intros (t & Ht & Hl & <-). exists t. split; [done|].
      by apply list_elem_of_filter.
  - intros bucket ([d g] & -> & Hg)%list_elem_of_fmap.
    apply groupby_nonempty in Hg. cbn. destruct g; [done|cbn; lia].
Qed.

Lemma timeline_days_ascend_witness :
  StronglySorted lt
    (daily_day <$> temporal_daily_counts
                     (temporal_of Fixtures.ledger_ring "price_spike")).
Proof.
  apply (timeline_days_ascend Fixtures.ledger_ring).
  vm_compute. do 1 apply list_elem_of_further. apply list_elem_of_here.
Defined.

(** * The particles and their legend *)





Lemma imap_index_free {A B C} (g : nat → A → B) (h : B → C) (f : A → C)
    (l : list A) :
  (∀ i a, h (g i a) = f a) → h <$> imap g l = f <$> l.
Proof.
  revert g. induction l as [|a l IH]; intros g Hg; [done|].
  rewrite imap_cons, !fmap_cons, Hg. f_equal. apply IH. intros i b. apply Hg.
Qed.




(** * The geographic flows as a whole *)

Lemma flows_groups `{Kernels} (transactions : list Txn) :
  flows transactions
  = flow_group_of transactions
      <$> filter (λ g, g.1.1.1 ≠ g.1.1.2)
                 (groupby triple_leb
                    (λ t, (buyer_region t, seller_region t, marketplace t))
                    (flow_keyed transactions)).
Proof. unfold flows. by rewrite filter_fmap_comm. Qed.

(** X10. A ledger in which every transaction stays inside one region has
    no flow at all: the aggregation returns the empty list and looks no
    region up, so it does not raise even for a region missing from the
    table. *)
Theorem flows_of_home_trades_are_empty `{Kernels} (transactions : list Txn) :
  (∀ t, t ∈ transactions → buyer_region t = seller_region t) →
  flow_data transactions = Ok []
  ∧ ∃ ge, geo_export transactions = Ok ge ∧ geo_flows ge = []
          ∧ region_code <$> geo_regions ge = region_codes.
Proof.
  intros Hhome.
  assert (Hflows : flows transactions = []).
  { rewrite flows_groups, filter_none; [done|].
    intros [[[b s] m] rows] Hg Hne. cbn in Hne.
    apply elem_of_groupby in Hg as [Hk _].
    apply list_elem_of_fmap in Hk as (t & [= -> -> ->] & Ht).
    apply elem_of_flow_keyed in Ht as [Ht _]. by apply Hne, Hhome. }
  assert (Hdata : flow_data transactions = Ok []).
  { unfold flow_data. by rewrite Hflows. }
  split; [done|]. unfold geo_export. rewrite Hdata. cbn [bind].
  eexists. split_and!; done.
Qed.

Lemma flows_of_home_trades_are_empty_witness :
  flow_data Tables.ledger_home = Ok []
  ∧ ∃ ge, geo_export Tables.ledger_home = Ok ge ∧ geo_flows ge = []
          ∧ region_code <$> geo_regions ge = region_codes.
Proof.
  apply (flows_of_home_trades_are_empty Tables.ledger_home).
  intros t Ht. unfold Tables.ledger_home in Ht.
  repeat (apply elem_of_cons in Ht as [->|Ht]; [reflexivity|]).
  by apply elem_of_nil in Ht.
Defined.

Lemma flow_of_fields (transactions : list Txn)
    (row : FlowGroup) (f : Flow) :
  flow_of transactions row = Ok f →
  flow_source f = fg_buyer_region row
  ∧ flow_target f = fg_seller_region row
  ∧ flow_marketplace f = fg_marketplace row
  ∧ flow_tx_count f = fg_transaction_id row
  ∧ flow_anomaly_count f = fg_is_anomaly row.
Proof.
  unfold flow_of.
  destruct (region_lookup (fg_buyer_region row)); cbn [bind]; [|done].
  destruct (region_lookup (fg_seller_region row)); cbn [bind]; [|done].
  by intros [= <-].
Qed.

Lemma flow_rows_fields {A} (transactions : list Txn) (h : Flow → A) (g : FlowGroup → A)
    (rows : list FlowGroup) (fd : list Flow) :
  (∀ row f, flow_of transactions row = Ok f → h f = g row) →
  flow_rows transactions rows = Ok fd → h <$> fd = g <$> rows.
Proof.
  intros Hhg. revert fd.
  induction rows as [|row rows IH]; intros fd; cbn [flow_rows].
  - by intros [= <-].
  - destruct (flow_of transactions row) as [f|] eqn:E; cbn [bind]; [|done].
    destruct (flow_rows transactions rows) as [fs|]; cbn [bind]; [|done].
    intros [= <-]. rewrite !fmap_cons, (Hhg _ _ E). f_equal. by apply IH.
Qed.

(** X11. When the flows are produced, there is one flow per ordered
    region pair and marketplace with differing regions, each standing for at
    least one transaction and counting no more anomalies than transactions.
    A flow counts the transactions of its two regions and its marketplace,
    and the counts of all the flows add up to the number of cross-region
    transactions whose region and marketplace cells are present (a cell that
    reads as a missing-value token leaves the row out). *)
Theorem flows_partition_cross_region_txns `{Kernels} (transactions : list Txn)
    (fd : list Flow) :
  let missing : list string :=
    [ ""; "#N/A"; "#N/A N/A"; "#NA"; "-1.#IND"; "-1.#QNAN"; "-NaN"; "-nan";
      "1.#IND"; "1.#QNAN"; "<NA>"; "N/A"; "NA"; "NULL"; "NaN"; "None";
      "n/a"; "nan"; "null" ] in
  flow_data transactions = Ok fd →
  sum_list_with flow_tx_count fd
  = length (filter (λ t, buyer_region t ≠ seller_region t
                         ∧ (buyer_region t ∉ missing)
                         ∧ (seller_region t ∉ missing)
                         ∧ (marketplace t ∉ missing)) transactions)
  ∧ NoDup ((λ f, (flow_source f, flow_target f, flow_marketplace f)) <$> fd)
  ∧ ∀ f, f ∈ fd →
         flow_source f ≠ flow_target f
         ∧ (1 ≤ flow_tx_count f)%nat
         ∧ (flow_anomaly_count f ≤ flow_tx_count f)%nat
         ∧ flow_tx_count f
           = length (filter (λ t, buyer_region t = flow_source f
                                  ∧ seller_region t = flow_target f
                                  ∧ marketplace t = flow_marketplace f)
                            transactions).
Proof.
  intros missing Hfd. unfold flow_data in Hfd.
  set (key := λ t : Txn, (buyer_region t, seller_region t, marketplace t)).
  split_and!.
  - rewrite <- (sum_list_with_fmap id flow_tx_count).
    rewrite (flow_rows_fields _ flow_tx_count fg_transaction_id _ _
               (λ row f E, proj1 (proj2 (proj2 (proj2 (flow_of_fields _ row f E)))))
               Hfd).
    rewrite (sum_list_with_fmap id), flows_groups, sum_list_with_fmap.
    etrans;
      [exact (groupby_sizes key triple_leb (λ k, k.1.1 ≠ k.1.2)
                            (flow_keyed transactions))|].
    f_equal. unfold flow_keyed. rewrite filter_and.
    apply filter_ext_in. intros t _. cbn [key fst snd].
    rewrite !andb_True, !negb_True. unfold missing_cell.
    rewrite !bool_decide_spec. change na_values with missing. tauto.
  - assert (Ekeys : (λ f, (flow_source f, flow_target f, flow_marketplace f))
                      <$> fd
                    = (λ row, (fg_buyer_region row, fg_seller_region row,
                               fg_marketplace row)) <$> flows transactions).
    { apply (flow_rows_fields transactions); [|done]. intros row f E.
      by destruct (flow_of_fields _ row f E) as (-> & -> & -> & _). }
    rewrite Ekeys, flows_groups, <- list_fmap_compose.
    eapply (sublist_NoDup _
              (groupby triple_leb key (flow_keyed transactions)).*1);
      [apply groupby_keys_NoDup|].
    erewrite (list_fmap_ext _ fst); [|by intros i [[[b s] m] rows] _].
    apply fmap_sublist, sublist_filter.
  - intros f Hf.
    destruct (flow_rows_elem _ _ _ _ Hfd Hf) as (row & Hrow & E).
    destruct (flow_of_fields _ row f E) as (-> & -> & -> & -> & ->).
    destruct (flows_counts _ _ Hrow) as [Hle Hpos].
    apply elem_of_flows in Hrow as (Hne & t & Ht & ->).
    split_and!; [done|lia|done|].
    cbn [flow_group_of fg_transaction_id fg_buyer_region fg_seller_region
         fg_marketplace fst snd].
    f_equal. unfold flow_keyed at 1. rewrite filter_and.
    apply elem_of_flow_keyed in Ht as (_ & Hb & Hs & Hm).
    apply filter_ext_in. intros r _.
    rewrite !andb_True, !negb_True. unfold missing_cell.
    rewrite !bool_decide_spec. split.
    + intros [_ [= -> -> ->]]. done.
    + intros (Eb & Es & Em). rewrite Eb, Es, Em. done.
Qed.

Lemma flows_partition_cross_region_txns_witness :
  ∃ fd, flow_data Tables.ledger_na = Ok fd
        ∧ sum_list_with flow_tx_count fd = 1%nat
        ∧ length (filter (λ t, buyer_region t ≠ seller_region t)
                         Tables.ledger_na) = 2%nat.
Proof.
  destruct (flow_data Tables.ledger_na) as [fd|] eqn:E;
    [|by vm_compute in E].
  exists fd. split; [done|]. split; [|reflexivity].
  by destruct (flows_partition_cross_region_txns Tables.ledger_na fd E)
    as (-> & _).
Defined.

(** * The ring as a whole *)

Lemma top_sorted {K} `{EqDecision K} (n : nat) (l : list K) :
  StronglySorted (λ u v, (occurrences v l ≤ occurrences u l)%nat) (top n l).
Proof.
  unfold top, index, head.
  pose proof (take_sorted count_desc n _ (value_counts_sorted l)) as Hs.
  assert (Hc : Forall (λ a, a.2 = occurrences a.1 l) (take n (value_counts l))).
  { apply Forall_forall. intros [k c] Hk%subseteq_take.
    by apply elem_of_value_counts in Hk as [_ ->]. }
  induction Hs as [|a vs Hvs IH Ha]; [constructor|].
  apply Forall_cons in Hc as [Hac Hc]. rewrite fmap_cons.
  constructor; [by apply IH|].
  rewrite Forall_fmap, Forall_forall in *. intros b Hb.
  specialize (Ha b Hb). specialize (Hc b Hb). unfold count_desc in Ha.
  apply Nat.leb_le in Ha. cbn. lia.
Qed.

Lemma elem_of_ring_pool (transactions : list Txn) (u : string) :
  u ∈ ring_pool transactions
  ↔ ∃ t, t ∈ wash_trades transactions ∧ touches u t.
Proof.
  unfold ring_pool, touches. rewrite elem_of_app, !list_elem_of_fmap.
  naive_solver.
Qed.

(** X12. The ring view has at most 20 nodes.  They stand in rank order:
    the node at position [i] is the [i]-th ring user, and a node placed
    later appears no more often among the buyers and sellers of the rows
    labelled [wash_trade_ring] than a node placed earlier.  The wash-trade
    count of a node is the number of rows labelled [wash_trade_ring] in
    which it is buyer or seller, at least one; the metadata give the number
    of nodes and the number of rows labelled [wash_trade_ring]. *)
Theorem ring_nodes_in_rank_order (transactions : list Txn) :
  let washes :=
    filter (λ t, anomaly_label t = "wash_trade_ring") transactions in
  let pool := (buyer_id <$> washes) ++ (seller_id <$> washes) in
  let appearances := λ u : string, length (filter (λ v, v = u) pool) in
  let nodes := ring_export_nodes (ring_export transactions) in
  (length nodes ≤ 20)%nat
  ∧ ring_size (ring_export transactions) = length nodes
  ∧ total_wash_trades (ring_export transactions) = length washes
  ∧ (∀ i n, nodes !! i = Some n →
            ring_position n = i
            ∧ ring_users transactions !! i = Some (ring_node_id n)
            ∧ (1 ≤ wash_trade_count n)%nat
            ∧ wash_trade_count n
              = length (filter (λ t, buyer_id t = ring_node_id n
                                     ∨ seller_id t = ring_node_id n)
                               washes))
  ∧ StronglySorted (λ u v, (appearances v ≤ appearances u)%nat)
                   (ring_node_id <$> nodes).
Proof.
  intros washes pool appearances nodes. unfold nodes.
  cbn [ring_export ring_export_nodes ring_size total_wash_trades].
  assert (Hids : ring_node_id <$> ring_nodes transactions
                 = ring_users transactions).
  { unfold ring_nodes. rewrite (imap_index_free _ _ id) by done.
    apply list_fmap_id. }
  split_and!.
  - unfold ring_nodes. rewrite length_imap. unfold ring_users.
    rewrite top_length. lia.
  - unfold ring_nodes. by rewrite length_imap.
  - done.
  - intros i n (u & Hu & ->)%list_lookup_imap_Some.
    cbn [ring_position ring_node_id wash_trade_count].
    split_and!; [done..| |done].
    apply list_elem_of_lookup_2, top_subseteq in Hu.
    apply (elem_of_ring_pool transactions) in Hu as (t & Ht & Hut).
    assert (Hin : t ∈ filter (λ t, buyer_id t = u ∨ seller_id t = u)
                             (wash_trades transactions))
      by (by apply list_elem_of_filter).
    destruct (filter (λ t, buyer_id t = u ∨ seller_id t = u)
                     (wash_trades transactions));
      [by apply elem_of_nil in Hin|cbn [length]; lia].
  - rewrite Hids. apply (top_sorted 20 pool).
Qed.

Lemma ring_nodes_in_rank_order_witness :
  (λ n, (ring_node_id n, ring_position n, wash_trade_count n))
    <$> ring_export_nodes (ring_export Fixtures.ledger_ring)
  = [ ("b", 0%nat, 2%nat); ("a", 1%nat, 1%nat); ("c", 2%nat, 1%nat) ]
  ∧ total_wash_trades (ring_export Fixtures.ledger_ring) = 2%nat
  ∧ (length (ring_export_nodes (ring_export Fixtures.ledger_ring))
     ≤ 20)%nat.
Proof.
  split; [reflexivity|]. split; [reflexivity|].
  apply (ring_nodes_in_rank_order Fixtures.ledger_ring).
Defined.

(** X13. Without a transaction labelled [wash_trade_ring] the ring view
    is empty: no node, no edge, whatever else the ledger holds. *)
Theorem ring_without_wash_trades_is_empty (transactions : list Txn) :
  (∀ t, t ∈ transactions → anomaly_label t ≠ "wash_trade_ring") →
  ring_export transactions
  = {| ring_export_nodes := []; ring_export_edges := [];
       total_wash_trades := 0; ring_size := 0 |}.
Proof.
  intros Hnone.
  assert (Hw : wash_trades transactions = []).
  { unfold wash_trades. apply filter_none. intros t Ht. by apply Hnone. }
  assert (Hu : ring_users transactions = []).
  { unfold ring_users. by rewrite Hw. }
  unfold ring_export, ring_nodes, ring_edges, ring_txns. rewrite Hu, Hw.
  cbn [imap length head take]. f_equal.
  rewrite (filter_none (λ t, isin (buyer_id t) [] && isin (seller_id t) [])).
  - done.
  - intros t _. unfold isin. rewrite andb_True, !bool_decide_spec.
    intros [Hb _]. by apply elem_of_nil in Hb.
Qed.

Lemma ring_without_wash_trades_is_empty_witness :
  ring_export Tables.ledger_home
  = {| ring_export_nodes := []; ring_export_edges := [];
       total_wash_trades := 0; ring_size := 0 |}.
Proof.
  apply (ring_without_wash_trades_is_empty Tables.ledger_home).
  intros t Ht. unfold Tables.ledger_home in Ht.
  repeat (apply elem_of_cons in Ht as [->|Ht]; [discriminate|]).
  by apply elem_of_nil in Ht.
Defined.

(** * The marketplace clusters as a whole *)

Section ClusterFacts.
Context `{Kernels} (transactions : list Txn).
Context (choose : nat → list Txn → list Txn).


End ClusterFacts.


(** * The stats summary as a whole *)


(** X15. In the overview the anomalies are never more than the
    transactions; the detection rate is a number of the unit interval for
    every ledger with a transaction, and it is NaN exactly for the empty
    ledger, for which the summary is still produced. *)
Theorem detection_rate_nan_iff_empty_ledger `{Kernels}
    (transactions : list Txn) :
  let overview := stats_overview (stats_export transactions) in
  (overview_total_anomalies overview ≤ overview_total_transactions overview)%nat
  ∧ overview_total_anomalies overview = length (anomalies transactions)
  ∧ (overview_detection_rate overview = NaN ↔ transactions = [])
  ∧ (transactions ≠ [] → in_unit (overview_detection_rate overview)).
Proof.
  cbn. split_and!.
  - etrans; [apply count_true_le|]. by rewrite length_fmap.
  - rewrite count_true_is_anomaly. unfold anomalies. f_equal.
    apply filter_ext_in. intros t _. unfold is_anomaly.
    by rewrite bool_decide_spec.
  - split; [|by intros ->].
    destruct transactions as [|t rows]; [done|].
    unfold mean_bool, np_div. rewrite length_fmap. cbn [length]. done.
  - intros Hne. apply mean_bool_in_unit. by intros ?%fmap_nil_inv.
Qed.

Lemma detection_rate_nan_iff_empty_ledger_witness :
  in_unit (overview_detection_rate
             (stats_overview (stats_export Tables.ledger_calm))).
Proof.
  by apply (detection_rate_nan_iff_empty_ledger Tables.ledger_calm).
Defined.


(** X17. The per-type breakdown of the stats summary and the per-type
    totals of the timeline are computed separately, the first over the whole
    ledger and the second over the anomalies, and agree entry by entry on
    type, count, mean price and mean deviation. *)
Theorem breakdown_agrees_with_timeline `{Kernels} (transactions : list Txn) :
  Forall2 (λ b entry,
             breakdown_type b = temporal_type entry
             ∧ breakdown_count b = temporal_total_count entry
             ∧ breakdown_avg_price b = temporal_avg_price entry
             ∧ breakdown_avg_z_score b = temporal_avg_z_score entry)
          (stats_anomaly_breakdown (stats_export transactions))
          (temporal_data transactions).
Proof.
  cbn [stats_export stats_anomaly_breakdown]. unfold temporal_data.
  apply Forall2_fmap, Forall_Forall2_diag, Forall_forall.
  intros label Hl.
  apply elem_of_unique, list_elem_of_fmap in Hl as (t & -> & Ht).
  apply elem_of_anomalies in Ht as [_ Hnormal].
  assert (E : with_label transactions (anomaly_label t)
              = filter (λ t', anomaly_label t' = anomaly_label t)
                       (anomalies transactions)).
  { unfold with_label, anomalies. rewrite filter_and.
    apply filter_ext_in. intros t' _. unfold is_anomaly.
    rewrite bool_decide_spec. split; [|tauto].
    intros E. split; [congruence|done]. }
  cbn -[mean]. by rewrite E.
Qed.

(** X18. The stats of a cluster and the entry of the same marketplace in
    the stats summary agree on transactions, total value and anomaly rate.
    The summary covers every marketplace seen in the ledger, the clusters
    only the three fixed ones: a marketplace outside these three is in the
    summary and has no cluster. *)
Theorem cluster_stats_agree_with_summary `{Kernels} (transactions : list Txn)
    (choose : nat → list Txn → list Txn) :
  ∃ md, marketplace_data transactions choose = Ok md
    ∧ (∀ m mb, m ∈ md →
               mb ∈ stats_marketplaces (stats_export transactions) →
               mb_name mb = market_name m →
               mb_transactions mb = stats_total_transactions (market_stats_of m)
               ∧ mb_total_value mb = stats_total_value (market_stats_of m)
               ∧ mb_anomaly_rate mb = stats_anomaly_rate (market_stats_of m))
    ∧ (∀ t, t ∈ transactions →
            marketplace t ∈ mb_name
              <$> stats_marketplaces (stats_export transactions))
    ∧ (∀ name, name ∉ ["Prime"; "Shadow"; "Arcade"] →
               name ∉ market_name <$> md).
Proof.
  destruct (marketplace_data_ok transactions choose) as (md & E & Hn & Hs).
  exists md. split_and!; [done| | |].
  - intros m mb Hm Hmb Hname. rewrite (Hs m Hm).
    cbn [stats_export stats_marketplaces] in Hmb.
    apply list_elem_of_fmap in Hmb as (name & -> & _).
    cbn in Hname. subst name. done.
  - intros t Ht. cbn [stats_export stats_marketplaces].
    rewrite <- list_fmap_compose.
    apply list_elem_of_fmap. exists (marketplace t). split; [done|].
    apply elem_of_unique, list_elem_of_fmap. eauto.
  - intros name. by rewrite Hn.
Qed.

Lemma cluster_stats_agree_with_summary_witness :
  ∃ md, marketplace_data Tables.ledger_calm Fixtures.first_rows = Ok md
        ∧ ("Bazaar" ∈ mb_name
             <$> stats_marketplaces (stats_export Tables.ledger_calm))
        ∧ ("Bazaar" ∉ market_name <$> md).
Proof.
  destruct (cluster_stats_agree_with_summary Tables.ledger_calm
              Fixtures.first_rows) as (md & E & _ & Hin & Hout).
  exists md. split; [done|].
  pose (t := Fixtures.row "t3" "a" "b" "keys" 9 (3 # 2) "Bazaar" "EU" "SEA"
                          "price_spike").
  assert (Ht : t ∈ Tables.ledger_calm).
  { unfold Tables.ledger_calm, t.
    do 2 apply list_elem_of_further. apply list_elem_of_here. }
  split.
  - exact (Hin t Ht).
  - apply (Hout "Bazaar"). intros H.
    repeat (apply elem_of_cons in H as [H|H]; [discriminate H|]).
    by apply elem_of_nil in H.
Defined.

(** * The dashboard sample and the run of a well-formed ledger *)

(** X19. The transactions export never raises: it holds
    [min(500, n)] records for a ledger of [n] transactions, each the
    projection of a transaction of the ledger. *)
Theorem dashboard_sample_is_bounded (transactions : list Txn)
    (choose : nat → list Txn → list Txn) :
  draws_rows choose →
  ∃ te, transactions_export transactions choose = Ok te
        ∧ length te = Nat.min 500 (length transactions)
        ∧ ∀ r, r ∈ te → ∃ t, t ∈ transactions ∧ r = txn_record_of t.
Proof.
  intros Hch. unfold transactions_export. rewrite sample_min_ok. cbn [bind].
  destruct (Hch (Nat.min 500 (length transactions)) transactions)
    as [Hlen Hsub]; [lia|].
  eexists. split_and!; [done|by rewrite length_fmap|].
  intros r (t & -> & Ht)%list_elem_of_fmap. exists t. split; [|done].
  by apply Hsub.
Qed.

Lemma dashboard_sample_is_bounded_witness :
  ∃ te, transactions_export Tables.ledger_calm Fixtures.first_rows = Ok te
        ∧ length te = 4%nat.
Proof.
  destruct (dashboard_sample_is_bounded Tables.ledger_calm
              Fixtures.first_rows first_rows_draws) as (te & E & Hlen & _).
  by exists te.
Defined.

Lemma main_when_views_succeed `{Kernels}
    (transactions : list Txn) (users : list User)
    (choose : nat → list Txn → list Txn) pe ge :
  transactions ≠ [] →
  particle_export transactions choose = Ok pe →
  geo_export transactions = Ok ge →
  written (main transactions users choose)
  = ["network.json"; "timeline.json"; "particles.json"; "geo_flows.json";
     "wash_ring.json"; "marketplaces.json"; "stats.json";
     "transactions.json"; "anomalies.json"; "categories.json"]
  ∧ outcome (main transactions users choose) = Ok ().
Proof.
  intros Hne Epe Ege. unfold main, written, outcome.
  destruct (marketplace_export_ok transactions choose) as [me Eme].
  destruct (transactions_export_ok transactions choose) as [te Ete].
  assert (Eae : ∃ ae, anomalies_export transactions = Ok ae).
  { unfold anomalies_export, top_anomalies, nlargest.
    rewrite bool_decide_eq_true_2 by done.
    case_decide; cbn [bind]; by eexists. }
  destruct Eae as [ae Eae].
  unfold mbind, Script_bind, compute, dump.
  by rewrite Epe, Ege, Eme, Ete, Eae.
Qed.

(** X20. A ledger with at least one transaction and without a
    high-intensity row, all of whose cross-region transactions name regions
    of the table, runs to the end: the ten files are written, in the order
    of the script, and no exception is raised. *)
Theorem main_completes_on_calm_ledger `{Kernels} (transactions : list Txn)
    (users : list User) (choose : nat → list Txn → list Txn) :
  transactions ≠ [] →
  (∀ t, t ∈ transactions → (Qabs (price_z t) <= 2)%Q) →
  (∀ t, t ∈ transactions → buyer_region t ≠ seller_region t →
        buyer_region t ∈ region_codes ∧ seller_region t ∈ region_codes) →
  written (main transactions users choose)
  = ["network.json"; "timeline.json"; "particles.json"; "geo_flows.json";
     "wash_ring.json"; "marketplaces.json"; "stats.json";
     "transactions.json"; "anomalies.json"; "categories.json"]
  ∧ outcome (main transactions users choose) = Ok ().
Proof.
  intros Hrows Hcalm Hregions.
  assert (Hrest : filter (λ t, Qle_bool (abs_z t) 2) transactions
                  = transactions).
  { apply filter_all. intros t Ht. apply Is_true_true, Qle_bool_iff.
    by apply Hcalm. }
  assert (Hpe : ∃ pe, particle_export transactions choose = Ok pe).
  { unfold particle_export, particle_data, normal_sample, sample.
    rewrite Hrest. rewrite decide_True by lia. cbn [bind]. by eexists. }
  assert (Hge : ∃ ge, geo_export transactions = Ok ge).
  { unfold geo_export, flow_data.
    destruct (flow_rows_known transactions (flows transactions)) as [fd ->];
      [|cbn [bind]; by eexists].
    intros row Hrow. rewrite flows_groups in Hrow.
    apply list_elem_of_fmap in Hrow as ([[[b s] m] rows] & -> & Hg).
    apply list_elem_of_filter in Hg as [Hne Hg]. cbn in Hne |- *.
    apply elem_of_groupby in Hg as [Hk _].
    apply list_elem_of_fmap in Hk as (t & [= -> -> ->] & Ht).
    apply elem_of_flow_keyed in Ht as [Ht _]. by apply Hregions. }
  destruct Hpe as [pe Epe], Hge as [ge Ege].
  by eapply main_when_views_succeed.
Qed.

Lemma main_completes_on_calm_ledger_witness :
  written (main Tables.ledger_calm Tables.users_partial Fixtures.first_rows)
  = ["network.json"; "timeline.json"; "particles.json"; "geo_flows.json";
     "wash_ring.json"; "marketplaces.json"; "stats.json";
     "transactions.json"; "anomalies.json"; "categories.json"]
  ∧ outcome (main Tables.ledger_calm Tables.users_partial Fixtures.first_rows)
    = Ok ().
Proof.
  apply (main_completes_on_calm_ledger Tables.ledger_calm
           Tables.users_partial Fixtures.first_rows).
  - discriminate.
  - intros t Ht. unfold Tables.ledger_calm in Ht.
    repeat (apply elem_of_cons in Ht as [->|Ht];
            [apply Qle_bool_iff; reflexivity|]).
    by apply elem_of_nil in Ht.
  - intros t Ht Hne. unfold Tables.ledger_calm in Ht.
    repeat (apply elem_of_cons in Ht as [->|Ht];
            [first [by destruct Hne
                   |split; vm_compute;
                    repeat first [apply list_elem_of_here
                                 |apply list_elem_of_further]]|]).
    by apply elem_of_nil in Ht.
Defined.
